(** * beacon-import: a shallow embedding of [beacon-import.py]

    The script pushes genomic variants from a Galaxy server into a Beacon
    database.  This development embeds the functions of the script as Rocq
    definitions and proves properties of them.

    Conventions of the embedding.
    - A Python [str] is a Rocq [string]; a character stands for the code
      point of the same number, so the texts covered are those over the code
      points below 256.  On these, [\d] of [re] is the range 0-9, [[a-z]] is
      the range a-z and [str.lower] acts on A-Z and on the capital letters
      of the upper half (192-222 except 215).
    - A Python [int] is a [Z].
    - A [dict] that is only read by key is a [gmap string _]; a [dict] whose
      order is observable (the one given to [json.dumps]) is an association
      list in insertion order.
    - Effects (logging, files, calls to Galaxy and to the database) are
      threaded through a state-and-exception monad over a [world]. *)

From Stdlib Require Import ZArith Ascii DecimalString DecimalZ DecimalPos.
From stdpp Require Import gmap strings list fin_maps.

Local Open Scope Z_scope.

(** ** Text *)

Definition code (c : ascii) : N := N_of_ascii c.

(** The double quote, as a one-character string. *)
Definition dq : string := String (ascii_of_N 34) EmptyString.

(** [\d] on the code points below 256. *)
Definition is_digit (c : ascii) : bool :=
  ((48 <=? code c) && (code c <=? 57))%N.

(** [[a-z]]. *)
Definition is_az (c : ascii) : bool :=
  ((97 <=? code c) && (code c <=? 122))%N.

(** [str.upper] on a character of [[a-z]], the only place where the script
    calls it; other characters are returned unchanged. *)
Definition upper_az (c : ascii) : ascii :=
  if is_az c then ascii_of_N (code c - 32) else c.

(** [str.lower] on one code point below 256. *)
Definition lower_char (c : ascii) : ascii :=
  let n := code c in
  if (((65 <=? n) && (n <=? 90))
      || ((192 <=? n) && (n <=? 222) && negb (n =? 215)))%N
  then ascii_of_N (n + 32) else c.

Fixpoint lower (s : string) : string :=
  match s with
  | EmptyString => EmptyString
  | String c s' => String (lower_char c) (lower s')
  end.

(** [str(n)] for an [int]. *)
Definition str_of_int (n : Z) : string :=
  NilZero.string_of_int (Z.to_int n).

(** [sep.join(parts)]. *)
Fixpoint join (sep : string) (parts : list string) : string :=
  match parts with
  | [] => EmptyString
  | [p] => p
  | p :: ps => p +:+ sep +:+ join sep ps
  end.

(** *** The two regular expressions of the script *)

(** The longest prefix of digits, greedy [\d*], and what follows it. *)
Fixpoint span_digits (s : string) : string * string :=
  match s with
  | String c s' =>
      if is_digit c
      then let '(ds, rest) := span_digits s' in (String c ds, rest)
      else (EmptyString, s)
  | EmptyString => (EmptyString, EmptyString)
  end.

(** [s] without the literal prefix [p], when it starts with it. *)
Fixpoint strip_prefix (p s : string) : option string :=
  match p, s with
  | EmptyString, _ => Some s
  | String a p', String b s' =>
      if Ascii.eqb a b then strip_prefix p' s' else None
  | String _ _, EmptyString => None
  end.

(** One alternative [<family>\d+] of the group: the text it matches at the
    start of [s].  [\d+] is greedy and the [.*] that follows the group
    matches whatever is left on the line, the empty text included, so the
    first attempt of the engine succeeds and the group keeps every digit. *)
Definition family_digits (family s : string) : option string :=
  match strip_prefix family s with
  | Some rest =>
      match span_digits rest with
      | (EmptyString, _) => None
      | (ds, _) => Some (family +:+ ds)
      end
  | None => None
  end.

(** [re.match(r"(GRCh\d+|hg\d+).*", s)], reduced to what the script reads
    of the result: [None] when there is no match, and [match.group(1)]
    otherwise.  The alternatives are tried from left to right. *)
Definition match_reference (s : string) : option string :=
  match family_digits "GRCh" s with
  | Some g => Some g
  | None => family_digits "hg" s
  end.

(** [re.sub(r"_([a-z])", lambda x: x.group(1).upper(), s)]: the text is
    scanned from the left; an underscore followed by a letter of [[a-z]]
    is replaced by the capital of that letter and the scan resumes after
    the letter; any other character is copied. *)
Fixpoint camel_case (s : string) : string :=
  match s with
  | EmptyString => EmptyString
  | String c rest =>
      match rest with
      | String d rest' =>
          if Ascii.eqb c "_"%char && is_az d
          then String (upper_az d) (camel_case rest')
          else String c (camel_case rest)
      | EmptyString => String c EmptyString
      end
  end.

(** ** JSON values

    What [json.loads] returns and [json.dumps] accepts.  A float carries its
    literal; an object keeps its members in insertion order, as a [dict]
    does. *)

#[local] Set Warnings "-register-all".

Inductive json :=
| JNull
| JBool (b : bool)
| JInt (n : Z)
| JFloat (literal : string)
| JStr (s : string)
| JArr (items : list json)
| JObj (members : list (string * json)).

(** [d[key]] read on an insertion-ordered dictionary. *)
Fixpoint dict_get {V : Type} (d : list (string * V)) (key : string)
  : option V :=
  match d with
  | [] => None
  | (k, v) :: d' => if String.eqb k key then Some v else dict_get d' key
  end.

(** [d[key] = value]: a key that is present keeps its place, a new key goes
    to the end. *)
Fixpoint dict_set {V : Type} (d : list (string * V)) (key : string)
  (value : V) : list (string * V) :=
  match d with
  | [] => [(key, value)]
  | (k, v) :: d' =>
      if String.eqb k key then (k, value) :: d'
      else (k, v) :: dict_set d' key value
  end.

Definition hex_digit (n : N) : ascii :=
  if (n <? 10)%N then ascii_of_N (48 + n) else ascii_of_N (87 + n).

(** The replacement [json.dumps] makes for one character of a string
    (with [ensure_ascii], the default): the characters from the space to the
    tilde stand for themselves, except the quote and the backslash. *)
Definition escape_char (c : ascii) : string :=
  let n := code c in
  let bs := String (ascii_of_N 92) EmptyString in
  if (n =? 34)%N then bs +:+ dq
  else if (n =? 92)%N then bs +:+ bs
  else if (n =? 10)%N then bs +:+ "n"
  else if (n =? 13)%N then bs +:+ "r"
  else if (n =? 9)%N then bs +:+ "t"
  else if (n =? 8)%N then bs +:+ "b"
  else if (n =? 12)%N then bs +:+ "f"
  else if ((32 <=? n) && (n <=? 126))%N then String c EmptyString
  else bs +:+ "u00"
       +:+ String (hex_digit (n / 16)) (String (hex_digit (n mod 16)) EmptyString).

Fixpoint escape (s : string) : string :=
  match s with
  | EmptyString => EmptyString
  | String c s' => escape_char c +:+ escape s'
  end.

Definition json_string (s : string) : string := dq +:+ escape s +:+ dq.

(** [json.dumps(v)] with the default separators. *)
Fixpoint json_dumps (v : json) : string :=
  match v with
  | JNull => "null"
  | JBool true => "true"
  | JBool false => "false"
  | JInt n => str_of_int n
  | JFloat literal => literal
  | JStr s => json_string s
  | JArr items => "[" +:+ join ", " (map json_dumps items) +:+ "]"
  | JObj members =>
      "{" +:+ join ", "
                (map (fun kv => json_string (fst kv) +:+ ": " +:+ json_dumps (snd kv))
                     members)
          +:+ "}"
  end.

(** ** Exceptions, log records and calls to the outside *)

Inductive exn :=
| MissingFieldException (message : string)
| UnboundLocalError (variable : string)
| KeyError (key : string)
| TypeError
| JSONDecodeError
| FileNotFoundError (path : string)
| OSError (message : string)
| ForeignError (message : string).

Inductive level := INFO | WARNING | CRITICAL.

Record log_record := { lvl : level; msg : string }.

(** A call that leaves the process, in the order the script makes them. *)
Inductive call :=
| GetDatasets (history_id : json) (limit offset : Z)
| ShowDataset (dataset_id : string)
| DownloadDataset (dataset_id filename : string)
| LoadMetadata (metadata_file dataset_file : string)
| LoadMetadataDone (dataset_id : string)
| LoadDatafile (dataset_file dataset_id : string) (min_ac : Z)
| LoadDatafileDone
| Fetch (query : string).

(** ** The outside: Galaxy, the variant-file parser, the Beacon database *)

(** An entry of a page of [gi.datasets.get_datasets]; of its fields the
    script reads ["id"]. *)
Record api_entry := { entry_id : string }.

Record response := {
  status_code : Z;
  (** the body, as [json.loads] reads it: [None] when it is not JSON *)
  content : option json
}.

(** A [GalaxyInstance]: the answers of the server to the requests the script
    makes. *)
Record GalaxyInstance := {
  base_url : string;
  make_get_request : string -> exn + response;
  get_datasets_page : json -> Z -> Z -> list api_entry;
  show_dataset : string -> gmap string string;
  (** [datasets.download_dataset], which is code of [bioblend]: the bytes
      it has written to the file, or, when it raised, the text of the
      exception with what the failed transfer left at the destination,
      [None] when it has not touched the path and the incomplete file
      otherwise *)
  download : string -> (string * option string) + string
}.

(** A record of a variant file, as [cyvcf2] presents it. *)
Record Variant := { start : Z; REF : string; ALT : list string }.

(** A row returned for [SELECT index ...]. *)
Record row := { index : Z }.

(** The libraries the script drives but does not define: [cyvcf2.VCF],
    [BeaconDB] with its connection, the file system and the clock.  A load
    reads the files it is given and changes the database only; a fetch
    changes nothing. *)
Record externals := {
  conn : Type;
  (** [open(path, 'w')]: the exception it raises at this path (no such
      directory, no permission, a directory of that name), if any *)
  open_w : string -> option exn;
  parse_vcf : string -> option (list Variant);
  load_metadata :
    conn -> gmap string string -> list Variant -> string -> string ->
    exn + (string * conn);
  load_datafile :
    conn -> gmap string string -> list Variant -> string -> string -> Z ->
    exn + conn;
  conn_fetch : conn -> string -> list row;
  (** [datetime.datetime.now().strftime("%Y-%m-%d %H:%M:%S")] at the n-th
      reading of the clock *)
  now_strftime : nat -> string
}.

(** ** The two data classes *)

#[export] Instance result_ret : MRet (sum exn) := fun A a => inr a.

#[export] Instance result_bind : MBind (sum exn) := fun A B f r =>
  match r with
  | inl e => inl e
  | inr a => f a
  end.

(** [info[key]] on a dictionary read by key. *)
Definition getitem (info : gmap string string) (key : string) : exn + string :=
  match info !! key with
  | Some v => inr v
  | None => inl (KeyError key)
  end.

Module GalaxyDataset.

Record t := {
  name : string;
  id : string;
  uuid : string;
  extension : string;
  reference_name : string
}.

Definition required_keys : list string :=
  ["name"; "id"; "uuid"; "extension"; "metadata_dbkey"].

(** The loop at the head of [__init__]: the first key that is missing
    raises. *)
Fixpoint check_keys (keys : list string) (info : gmap string string)
  : exn + unit :=
  match keys with
  | [] => inr tt
  | key :: keys' =>
      match info !! key with
      | Some _ => check_keys keys' info
      | None =>
          inl (MissingFieldException
                 ("key " +:+ dq +:+ key +:+ dq +:+ " not defined"))
      end
  end.

(** [GalaxyDataset(info)]. *)
Definition init (info : gmap string string) : exn + t :=
  check_keys required_keys info;;
  name ← getitem info "name";
  id ← getitem info "id";
  uuid ← getitem info "uuid";
  extension ← getitem info "extension";
  reference_name ← getitem info "metadata_dbkey";
  mret {| name := name; id := id; uuid := uuid; extension := extension;
          reference_name := reference_name |}.

(** [dataset.reference_name = value]. *)
Definition set_reference_name (value : string) (d : t) : t :=
  {| name := name d; id := id d; uuid := uuid d; extension := extension d;
     reference_name := value |}.

End GalaxyDataset.

Module BeaconMetadata.

Record t := {
  name : string;
  dataset_id : string;
  description : string;
  assembly_id : string;
  external_url : string;
  access_type : string;
  create_date_time : string;
  update_date_time : string;
  call_count : Z;
  version : string;
  variant_count : Z
}.

(** [vars(self).items()]: the attributes in the order [__init__] of the
    data class assigns them, which is the order of declaration. *)
Definition vars (m : t) : list (string * json) :=
  [ ("name", JStr (name m));
    ("dataset_id", JStr (dataset_id m));
    ("description", JStr (description m));
    ("assembly_id", JStr (assembly_id m));
    ("external_url", JStr (external_url m));
    ("access_type", JStr (access_type m));
    ("create_date_time", JStr (create_date_time m));
    ("update_date_time", JStr (update_date_time m));
    ("call_count", JInt (call_count m));
    ("version", JStr (version m));
    ("variant_count", JInt (variant_count m)) ].

(** The dictionary [data] that the loop of [__json__] fills. *)
Definition data (m : t) : list (string * json) :=
  fold_left
    (fun data item => dict_set data (camel_case (fst item)) (snd item))
    (vars m) [].

Definition __json__ (m : t) : string := json_dumps (JObj (data m)).

End BeaconMetadata.

(** The message of [get_beacon_histories]. *)
Definition bla : log_record := {| lvl := CRITICAL; msg := "bla" |}.

(** The two warnings of [get_datasets]. *)
Definition missing_field_warning (entry_id e : string) : log_record :=
  {| lvl := WARNING;
     msg := "not reading dataset " +:+ entry_id +:+ " because " +:+ e
            +:+ " from api response" |}.

Definition unknown_reference_warning (d : GalaxyDataset.t) : log_record :=
  {| lvl := WARNING;
     msg := "not reading dataset " +:+ GalaxyDataset.name d
            +:+ " with unknown reference " +:+ dq
            +:+ GalaxyDataset.reference_name d +:+ dq |}.

(** The destination paths [main] gives to the two files of a dataset. *)
Definition dataset_path (dataset : GalaxyDataset.t) : string :=
  "/tmp/dataset-" +:+ GalaxyDataset.uuid dataset.

Definition metadata_path (dataset : GalaxyDataset.t) : string :=
  "/tmp/metadata-" +:+ GalaxyDataset.uuid dataset.

(** The text of the query of [get_variant_indices]. *)
Definition select_indices (start : Z) (ref alt : string) : string :=
  "SELECT index FROM beacon_data_table where start=" +:+ str_of_int start
  +:+ " AND reference='" +:+ ref +:+ "' and alternate='" +:+ alt +:+ "'".

(** The metadata [prepare_metadata_file] assembles, given the two readings
    of the clock. *)
Definition assemble_metadata (dataset : GalaxyDataset.t)
  (created updated : string) : BeaconMetadata.t :=
  let call_count := 123 in
  let variant_count := 123 in
  {| BeaconMetadata.name :=
       "Galaxy.eu variants for " +:+ GalaxyDataset.reference_name dataset;
     BeaconMetadata.dataset_id :=
       "galaxy-" +:+ lower (GalaxyDataset.reference_name dataset);
     BeaconMetadata.description := "variants shared by galaxy.eu users";
     BeaconMetadata.assembly_id := GalaxyDataset.reference_name dataset;
     BeaconMetadata.external_url := "usegalaxy.eu";
     BeaconMetadata.access_type := "PUBLIC";
     BeaconMetadata.create_date_time := created;
     BeaconMetadata.update_date_time := updated;
     BeaconMetadata.call_count := call_count;
     BeaconMetadata.version := "v0.1";
     BeaconMetadata.variant_count := variant_count |}.

(** ** The world and the monad of the script *)

(** How a computation ends: with a value, with an exception, by [exit], or
    not within the fuel given to a [while True]. *)
Inductive res (A : Type) :=
| Val (a : A)
| Exc (e : exn)
| Exit (status : Z)
| Div.

Arguments Val {A} a.
Arguments Exc {A} e.
Arguments Exit {A} status.
Arguments Div {A}.

Section Script.

Context (X : externals).

Record world := {
  w_log : list log_record;         (** what [logging] has been given *)
  w_calls : list call;             (** the calls made so far *)
  w_fs : gmap string string;       (** the files, by path *)
  w_db : conn X;                   (** the global [db] *)
  w_origins : string;              (** what was written to [variant_origins_file] *)
  w_clock : nat                    (** how often the clock was read *)
}.

Definition M (A : Type) : Type := world -> res A * world.

#[global] Instance M_ret : MRet M := fun A a w => (Val a, w).

#[global] Instance M_bind : MBind M := fun A B f m w =>
  match m w with
  | (Val a, w') => f a w'
  | (Exc e, w') => (Exc e, w')
  | (Exit n, w') => (Exit n, w')
  | (Div, w') => (Div, w')
  end.

Definition raise {A : Type} (e : exn) : M A := fun w => (Exc e, w).

Definition lift {A : Type} (r : exn + A) : M A :=
  match r with
  | inl e => raise e
  | inr a => mret a
  end.

(** [for x in l: s = body(x, s)]. *)
Fixpoint for_each {A S : Type} (l : list A) (body : A -> S -> M S) (s : S)
  : M S :=
  match l with
  | [] => mret s
  | x :: l' => s' ← body x s; for_each l' body s'
  end.

(** The world after one more log record, call, file, and so on. *)
Definition add_log (r : log_record) (w : world) : world :=
  {| w_log := w_log w ++ [r]; w_calls := w_calls w; w_fs := w_fs w;
     w_db := w_db w; w_origins := w_origins w; w_clock := w_clock w |}.

Definition add_call (c : call) (w : world) : world :=
  {| w_log := w_log w; w_calls := w_calls w ++ [c]; w_fs := w_fs w;
     w_db := w_db w; w_origins := w_origins w; w_clock := w_clock w |}.

Definition put_fs (fs : gmap string string) (w : world) : world :=
  {| w_log := w_log w; w_calls := w_calls w; w_fs := fs;
     w_db := w_db w; w_origins := w_origins w; w_clock := w_clock w |}.

Definition put_db (c : conn X) (w : world) : world :=
  {| w_log := w_log w; w_calls := w_calls w; w_fs := w_fs w; w_db := c;
     w_origins := w_origins w; w_clock := w_clock w |}.

Definition add_origins (text : string) (w : world) : world :=
  {| w_log := w_log w; w_calls := w_calls w; w_fs := w_fs w;
     w_db := w_db w; w_origins := w_origins w +:+ text;
     w_clock := w_clock w |}.

Definition tick (w : world) : world :=
  {| w_log := w_log w; w_calls := w_calls w; w_fs := w_fs w;
     w_db := w_db w; w_origins := w_origins w; w_clock := S (w_clock w) |}.

Definition logging (l : level) (m : string) : M unit := fun w =>
  (Val tt, add_log {| lvl := l; msg := m |} w).

Definition logging_record (r : log_record) : M unit :=
  logging (lvl r) (msg r).

Definition record_call (c : call) : M unit := fun w =>
  (Val tt, add_call c w).

(** [with open(path, 'w') as f: f.write(text)]: when [open] raises, no
    file is written. *)
Definition write_file (path text : string) : M unit := fun w =>
  match open_w X path with
  | Some e => (Exc e, w)
  | None => (Val tt, put_fs (<[path := text]> (w_fs w)) w)
  end.

(** What a call of a library has left at [path]: a file, or the path as
    it was. *)
Definition leave_file (path : string) (remains : option string) : M unit :=
  fun w =>
  match remains with
  | Some text => (Val tt, put_fs (<[path := text]> (w_fs w)) w)
  | None => (Val tt, w)
  end.

(** [os.remove(path)]. *)
Definition os_remove (path : string) : M unit := fun w =>
  match w_fs w !! path with
  | Some _ => (Val tt, put_fs (delete path (w_fs w)) w)
  | None => (Exc (FileNotFoundError path), w)
  end.

(** [record.write(text)] on the handle opened for appending in [main], the
    only handle the script ever passes. *)
Definition record_write (text : string) : M unit := fun w =>
  (Val tt, add_origins text w).

Definition now : M string := fun w =>
  (Val (now_strftime X (w_clock w)), tick w).

(** A method of the global [db], given the connection and the files. *)
Definition ask_db {A : Type} (f : conn X -> gmap string string -> exn + A)
  : M A := fun w =>
  match f (w_db w) (w_fs w) with
  | inr a => (Val a, w)
  | inl e => (Exc e, w)
  end.

(** The state of the connection after a method that writes. *)
Definition set_db (c : conn X) : M unit := fun w => (Val tt, put_db c w).

(** [VCF(path)]: for a path it cannot open, [cyvcf2] raises
    [OSError("Error opening <path>")]. *)
Definition VCF (path : string) : M (list Variant) := fun w =>
  match w_fs w !! path with
  | Some text =>
      match parse_vcf X text with
      | Some records => (Val records, w)
      | None => (Exc (ForeignError "not a variant file"), w)
      end
  | None => (Exc (OSError ("Error opening " +:+ path)), w)
  end.

(** ** [get_beacon_histories] *)

(** [key in v] for a string [key]. *)
Definition py_in (key : string) (v : json) : exn + bool :=
  match v with
  | JObj members =>
      inr (match dict_get members key with Some _ => true | None => false end)
  | JArr items =>
      inr (existsb (fun x => match x with
                             | JStr s => String.eqb s key
                             | _ => false
                             end) items)
  | JStr s =>
      inr (match String.index 0 key s with Some _ => true | None => false end)
  | _ => inl TypeError
  end.

(** [v[key]] for a string [key]. *)
Definition py_getitem (v : json) (key : string) : exn + json :=
  match v with
  | JObj members =>
      match dict_get members key with
      | Some x => inr x
      | None => inl (KeyError key)
      end
  | _ => inl TypeError
  end.

Definition json_loads (body : option json) : exn + json :=
  match body with
  | Some v => inr v
  | None => inl JSONDecodeError
  end.

Definition get_beacon_histories (gi : GalaxyInstance) : M json :=
  beacon_histories_response ←
    lift (make_get_request gi (base_url gi +:+ "/api/histories/beacon"));
  (if bool_decide (status_code beacon_histories_response ≠ 200)
   then logging CRITICAL "bla" else mret tt);;
  beacon_histories_response_body ←
    lift (json_loads (content beacon_histories_response));
  present ← lift (py_in "beacon_histories" beacon_histories_response_body);
  (if negb present then logging CRITICAL "bla" else mret tt);;
  lift (py_getitem beacon_histories_response_body "beacon_histories").

(** ** [get_datasets] *)

(** The variables of [get_datasets] that outlive an iteration: the list
    [datasets], and [dataset], which is unbound until the first assignment
    succeeds and keeps its object from one entry to the next.  Objects are
    represented by their values: the one assignment that can reach an object
    already in [datasets] is [dataset.reference_name = match.group(1)] on an
    object that went through it before, and it writes the value the object
    holds (lemma [match_reference_idem]). *)
Record locals := {
  datasets : list GalaxyDataset.t;
  dataset : option GalaxyDataset.t
}.

Definition limit : Z := 500.

(** The body of [for api_dataset_list_entry in api_dataset_list]. *)
Definition entry_body (gi : GalaxyInstance) (api_dataset_list_entry : api_entry)
  (l : locals) : M locals :=
  let entry_id := entry_id api_dataset_list_entry in
  record_call (ShowDataset entry_id);;
  let dataset_info := show_dataset gi entry_id in
  l ← match GalaxyDataset.init dataset_info with
      | inr d => mret {| datasets := datasets l; dataset := Some d |}
      | inl (MissingFieldException e) =>
          logging_record (missing_field_warning entry_id e);;
          mret l
      | inl e => raise e
      end;
  match dataset l with
  | None => raise (UnboundLocalError "dataset")
  | Some d =>
      match match_reference (GalaxyDataset.reference_name d) with
      | None =>
          logging_record (unknown_reference_warning d);;
          mret l
      | Some group1 =>
          let d := GalaxyDataset.set_reference_name group1 d in
          mret {| datasets := datasets l ++ [d]; dataset := Some d |}
      end
  end.

(** The [while True] loop, from the request at [offset] on. *)
Fixpoint get_datasets_from (fuel : nat) (gi : GalaxyInstance)
  (history_id : json) (offset : Z) (l : locals) : M (list GalaxyDataset.t) :=
  match fuel with
  | O => fun w => (Div, w)
  | S fuel =>
      record_call (GetDatasets history_id limit offset);;
      let api_dataset_list := get_datasets_page gi history_id limit offset in
      l ← for_each api_dataset_list (entry_body gi) l;
      let offset := offset + limit in
      if bool_decide (length api_dataset_list = 0%nat)
      then mret (datasets l)
      else get_datasets_from fuel gi history_id offset l
  end.

Definition get_datasets (fuel : nat) (gi : GalaxyInstance) (history_id : json)
  : M (list GalaxyDataset.t) :=
  get_datasets_from fuel gi history_id 0 {| datasets := []; dataset := None |}.

(** ** [prepare_metadata_file] *)

Definition prepare_metadata_file (dataset : GalaxyDataset.t)
  (output_path : string) : M unit :=
  created ← now;
  updated ← now;
  let metadata := assemble_metadata dataset created updated in
  write_file output_path (BeaconMetadata.__json__ metadata).

(** ** [download_dataset] *)

Definition download_dataset (gi : GalaxyInstance) (dataset : GalaxyDataset.t)
  (filename : string) : M unit :=
  record_call (DownloadDataset (GalaxyDataset.id dataset) filename);;
  match download gi (GalaxyDataset.id dataset) with
  | inr bytes => leave_file filename (Some bytes)
  | inl (e, remains) =>
      leave_file filename remains;;
      logging CRITICAL ("something went wrong while downloading file - " +:+ e)
  end.

(** ** [beacon_import] *)

(** [loop.run_until_complete(db.load_metadata(...))]: the call returns when
    the load has completed. *)
Definition db_load_metadata (vcf : list Variant)
  (metadata_file dataset_file : string) : M string :=
  record_call (LoadMetadata metadata_file dataset_file);;
  r ← ask_db (fun c fs => load_metadata X c fs vcf metadata_file dataset_file);
  set_db (snd r);;
  record_call (LoadMetadataDone (fst r));;
  mret (fst r).

Definition db_load_datafile (vcf : list Variant)
  (dataset_file dataset_id : string) (min_ac : Z) : M unit :=
  record_call (LoadDatafile dataset_file dataset_id min_ac);;
  c ← ask_db (fun c fs =>
                load_datafile X c fs vcf dataset_file dataset_id min_ac);
  set_db c;;
  record_call LoadDatafileDone.

Definition beacon_import (dataset_file metadata_file : string) : M unit :=
  dataset_vcf ← VCF dataset_file;
  dataset_id ← db_load_metadata dataset_vcf metadata_file dataset_file;
  db_load_datafile dataset_vcf dataset_file dataset_id 0.

(** ** [get_variant_indices] and [persist_variant_origins] *)

Definition get_variant_indices (start : Z) (ref alt : string) : M (list Z) :=
  let query := select_indices start ref alt in
  record_call (Fetch query);;
  rows ← ask_db (fun c _ => inr (conn_fetch X c query));
  mret (map index rows).

Definition newline : string := String (ascii_of_N 10) EmptyString.

Definition persist_variant_origins (dataset_id : string)
  (dataset : list Variant) : M unit :=
  for_each dataset (fun variant _ =>
    for_each (ALT variant) (fun alt _ =>
      indices ← get_variant_indices (start variant) (REF variant) alt;
      for_each indices (fun index _ =>
        record_write (str_of_int index +:+ " " +:+ dataset_id +:+ newline))
        tt) tt) tt.

(** ** [cleanup] *)

Definition cleanup (dataset_file metadata_file : string) : M unit :=
  os_remove dataset_file;;
  os_remove metadata_file.

(** ** The loops of [main] *)

Record arguments := { skip_origins : bool }.

(** The body of [for dataset in get_datasets(...)]. *)
Definition import_dataset (args : arguments) (gi : GalaxyInstance)
  (dataset : GalaxyDataset.t) : M unit :=
  logging INFO ("next file is " +:+ GalaxyDataset.name dataset);;
  let dataset_file := dataset_path dataset in
  let metadata_file := metadata_path dataset in
  download_dataset gi dataset dataset_file;;
  prepare_metadata_file dataset metadata_file;;
  beacon_import dataset_file metadata_file;;
  if negb (skip_origins args)
  then
    reopened ← VCF dataset_file;
    persist_variant_origins (GalaxyDataset.id dataset) reopened
  else mret tt.

(** [for x in v]. *)
Definition py_iter (v : json) : exn + list json :=
  match v with
  | JArr items => inr items
  | JObj members => inr (map (fun kv => JStr (fst kv)) members)
  | JStr s =>
      inr (map (fun c => JStr (String c EmptyString)) (String.list_ascii_of_string s))
  | _ => inl TypeError
  end.

(** [main] from "load data from beacon histories" on. *)
Definition import_histories (fuel : nat) (args : arguments)
  (gi : GalaxyInstance) : M unit :=
  histories ← (beacon_histories ← get_beacon_histories gi;
               lift (py_iter beacon_histories));
  for_each histories (fun history _ =>
    history_id ← lift (py_getitem history "history_id");
    datasets ← get_datasets fuel gi history_id;
    for_each datasets (fun dataset _ => import_dataset args gi dataset) tt) tt.

(** ** Auxiliary notions for the statements *)

(** The world after some more calls and some more text in the origin
    file. *)
Definition grow (cs : list call) (text : string) (w : world) : world :=
  {| w_log := w_log w; w_calls := w_calls w ++ cs; w_fs := w_fs w;
     w_db := w_db w; w_origins := w_origins w +:+ text;
     w_clock := w_clock w |}.

(** The indices the database [c] returns for a variant. *)
Definition indices_in (c : conn X) (start : Z) (ref alt : string) : list Z :=
  map index (conn_fetch X c (select_indices start ref alt)).

(** The metadata [prepare_metadata_file] assembles in the world [w]. *)
Definition metadata_in (dataset : GalaxyDataset.t) (w : world)
  : BeaconMetadata.t :=
  assemble_metadata dataset (now_strftime X (w_clock w))
    (now_strftime X (S (w_clock w))).

(** The run [r] from the world [w] has written [text] to [path]: it has
    returned with the text in the file, unless [open] raises at the path;
    it has then raised that exception and left the files as they were. *)
Definition writes (path text : string) (w : world) (r : res unit * world)
  : Prop :=
  match open_w X path with
  | None => fst r = Val tt ∧ w_fs (snd r) !! path = Some text
  | Some e => fst r = Exc e ∧ w_fs (snd r) = w_fs w
  end.

End Script.

(** ** The registry's threshold *)

(** Modelled from the spec: the threshold of the registry's variant load.
    The load is [BeaconDB.load_datafile] of the Beacon library, which is
    not in this repository; the specification describes it as loading a
    variant file "with a configurable minimum-allele-count threshold"
    whose default "would exclude some" variants.  A record passes when its
    allele count, a natural number, is not below the minimum. *)
Definition reaches_min_ac (min_ac : Z) (allele_count : N) : bool :=
  (min_ac <=? Z.of_N allele_count)%Z.

(** Modelled from the spec: a registry whose variant load follows that
    threshold.  [allele_count] gives the count of a record and [holds c v]
    says that the database [c] holds the record [v]: a load that returns
    has loaded every record of the file whose count reaches the minimum
    it was given. *)
Definition threshold_registry (X : externals)
  (allele_count : Variant -> N) (holds : conn X -> Variant -> Prop) : Prop :=
  ∀ c fs records dataset_file dataset_id min_ac c',
    load_datafile X c fs records dataset_file dataset_id min_ac = inr c' ->
    ∀ v, v ∈ records -> reaches_min_ac min_ac (allele_count v) = true ->
         holds c' v.

(** ** What the origin file is expected to receive

    One line per index, for every record, every alternate allele and every
    index the query returns for them, in that order. *)
Definition origin_line (index : Z) (dataset_id : string) : string :=
  str_of_int index +:+ " " +:+ dataset_id +:+ newline.

Definition origin_lines (indices_for : Z -> string -> string -> list Z)
  (dataset_id : string) (records : list Variant) : list string :=
  flat_map (fun v =>
    flat_map (fun alt =>
      map (fun i => origin_line i dataset_id)
          (indices_for (start v) (REF v) alt))
      (ALT v))
    records.

Definition fetch_calls (records : list Variant) : list call :=
  flat_map (fun v =>
    map (fun alt => Fetch (select_indices (start v) (REF v) alt)) (ALT v))
    records.

Fixpoint concat_lines (lines : list string) : string :=
  match lines with
  | [] => EmptyString
  | line :: lines' => line +:+ concat_lines lines'
  end.

(** The calls of one page: the request, then one [show_dataset] per entry. *)
Definition page_calls (gi : GalaxyInstance) (history_id : json) (offset : Z)
  : list call :=
  GetDatasets history_id limit offset
  :: map (fun e => ShowDataset (entry_id e))
         (get_datasets_page gi history_id limit offset).

(** The offsets of the page requests among some calls, and the entries
    whose description was asked for. *)
Definition requested_offsets (cs : list call) : list Z :=
  flat_map (fun c => match c with
                     | GetDatasets _ _ offset => [offset]
                     | _ => []
                     end) cs.

Definition shown_entries (cs : list call) : list string :=
  flat_map (fun c => match c with
                     | ShowDataset dataset_id => [dataset_id]
                     | _ => []
                     end) cs.

(** A description with every key the constructor asks for. *)
Definition complete (info : gmap string string) : Prop :=
  ∀ key, key ∈ GalaxyDataset.required_keys -> is_Some (info !! key).

(** The offset of the request number [i], counting from 0. *)
Definition offset_of (i : nat) : Z := limit * Z.of_nat i.

Definition all_digits (s : string) : bool :=
  forallb is_digit (String.list_ascii_of_string s).

Definition starts_with_digit (s : string) : bool :=
  match s with
  | String c _ => is_digit c
  | EmptyString => false
  end.

(** A label of the form family, digits, anything. *)
Definition reference_form (s : string) : Prop :=
  ∃ family ds rest,
    (family = "GRCh" ∨ family = "hg") ∧ ds ≠ EmptyString
    ∧ all_digits ds = true ∧ s = family +:+ ds +:+ rest.

(** ** Concrete runs

    A Beacon database held in memory, a parser that knows one file, and
    Galaxy servers with a handful of datasets, on which the functions above
    are evaluated. *)

Module Scenario.

Record data_row := {
  r_index : Z;
  r_dataset : string;
  r_start : Z;
  r_ref : string;
  r_alt : string
}.

Record memdb := { rows : list data_row; next_index : Z }.

(** The value of a string member of a document written by [json.dumps]. *)
Definition member_of_document (member text : string) : option string :=
  let key := dq +:+ member +:+ dq +:+ ": " +:+ dq in
  match String.index 0 key text with
  | Some i =>
      let from := (i + String.length key)%nat in
      let rest := String.substring from (String.length text - from) text in
      match String.index 0 dq rest with
      | Some j => Some (String.substring 0 j rest)
      | None => None
      end
  | None => None
  end.

(** The identifier the database assigns is the [datasetId] of the
    metadata document. *)
Definition mem_load_metadata (c : memdb) (fs : gmap string string)
  (vcf : list Variant) (metadata_file dataset_file : string)
  : exn + (string * memdb) :=
  match fs !! metadata_file with
  | Some text =>
      match member_of_document "datasetId" text with
      | Some dataset_id => inr (dataset_id, c)
      | None => inl (ForeignError "no datasetId")
      end
  | None => inl (FileNotFoundError metadata_file)
  end.

(** One row per record and alternate allele, numbered as they come. *)
Definition mem_insert (dataset_id : string) (v : Variant) (c : memdb)
  : memdb :=
  fold_left (fun c alt =>
    {| rows := rows c ++ [{| r_index := next_index c;
                             r_dataset := dataset_id;
                             r_start := start v; r_ref := REF v;
                             r_alt := alt |}];
       next_index := next_index c + 1 |})
    (ALT v) c.

(** The allele counts of the scenario: no sample carries the alleles of
    its files, so every record has the count 0 and a minimum of 1 leaves
    it out. *)
Definition mem_allele_count (v : Variant) : N := 0.

Definition mem_load_datafile (c : memdb) (fs : gmap string string)
  (vcf : list Variant) (dataset_file dataset_id : string) (min_ac : Z)
  : exn + memdb :=
  inr (fold_left (fun c v => mem_insert dataset_id v c)
         (List.filter (fun v => reaches_min_ac min_ac (mem_allele_count v))
            vcf)
         c).

(** The database holds a record when it has a row for each of its
    alternate alleles. *)
Definition mem_holds (c : memdb) (v : Variant) : Prop :=
  ∀ alt, alt ∈ ALT v ->
    ∃ r, r ∈ rows c ∧ r_start r = start v ∧ r_ref r = REF v ∧ r_alt r = alt.

Definition mem_fetch (c : memdb) (query : string) : list row :=
  map (fun r => {| index := r_index r |})
      (filter (fun r =>
                 select_indices (r_start r) (r_ref r) (r_alt r) = query)
              (rows c)).

(** The one variant file: position 101 on chromosome 1, A to T, which
    [cyvcf2] presents with the 0-based start 100. *)
Definition vcf_text : string := "1 101 . A T".

Definition vcf_records : list Variant :=
  [{| start := 100; REF := "A"; ALT := ["T"] |}].

Definition mem : externals :=
  {| conn := memdb;
     open_w := fun _ => None;
     parse_vcf := fun text =>
       if String.eqb text vcf_text then Some vcf_records else None;
     load_metadata := mem_load_metadata;
     load_datafile := mem_load_datafile;
     conn_fetch := mem_fetch;
     now_strftime := fun _ => "2023-01-01 00:00:00" |}.

(** The database before the import: row 4 already holds the variant, and
    the next row to be written is row 17. *)
Definition db0 : memdb :=
  {| rows := [{| r_index := 4; r_dataset := "galaxy-grch38";
                 r_start := 100; r_ref := "A"; r_alt := "T" |}];
     next_index := 17 |}.

Definition w0 : world mem :=
  Build_world mem [] [] ∅ db0 EmptyString 0.

(** The descriptions [show_dataset] returns. *)
Definition info (id reference : string) : gmap string string :=
  <["name" := "variants of " +:+ id]>
    (<["id" := id]>
       (<["uuid" := "uuid-" +:+ id]>
          (<["extension" := "vcf"]> (<["metadata_dbkey" := reference]> ∅)))).

Definition good : gmap string string := info "f2db41e1fa331b3e" "GRCh38.p13".
Definition mouse : gmap string string := info "a799d38679e985db" "mm10".
Definition no_uuid : gmap string string :=
  delete "uuid" (info "33b43b4e7093c91f" "hg19").

Definition second : gmap string string := info "bbd44e69cb8906b5" "hg19".

Definition describe (id : string) : gmap string string :=
  if String.eqb id "f2db41e1fa331b3e" then good
  else if String.eqb id "a799d38679e985db" then mouse
  else if String.eqb id "bbd44e69cb8906b5" then second
  else no_uuid.

Definition e_good : api_entry := {| entry_id := "f2db41e1fa331b3e" |}.
Definition e_mouse : api_entry := {| entry_id := "a799d38679e985db" |}.
Definition e_no_uuid : api_entry := {| entry_id := "33b43b4e7093c91f" |}.

(** A server that answers the page requests from a list of pages. *)
Definition server (pages : list (list api_entry)) : GalaxyInstance :=
  {| base_url := "http://localhost:8080";
     make_get_request := fun _ =>
       inr {| status_code := 200;
              content := Some (JObj [("beacon_histories",
                                      JArr [JObj [("history_id", JStr "h1")]])]) |};
     get_datasets_page := fun _ limit offset =>
       nth (Z.to_nat (offset / limit)) pages [];
     show_dataset := describe;
     download := fun _ => inr vcf_text |}.

Definition h1 : json := JStr "h1".

(** The page of the specification's example, followed by a page with a
    human dataset. *)
Definition gi_skip : GalaxyInstance :=
  server [[e_no_uuid; e_mouse]; [e_good]].

(** A human dataset, then an entry without uuid. *)
Definition gi_stale : GalaxyInstance := server [[e_good; e_no_uuid]].

(** Pages of 500, 500, 37 and 0 entries. *)
Definition gi_pages : GalaxyInstance :=
  server [replicate 500 e_good; replicate 500 e_good; replicate 37 e_good].

Definition gi_one : GalaxyInstance := server [[e_good]].

(** Two human datasets in one history. *)
Definition gi_two : GalaxyInstance :=
  server [[e_good; {| entry_id := "bbd44e69cb8906b5" |}]].

Definition the_dataset : GalaxyDataset.t :=
  {| GalaxyDataset.name := "variants of f2db41e1fa331b3e";
     GalaxyDataset.id := "f2db41e1fa331b3e";
     GalaxyDataset.uuid := "uuid-f2db41e1fa331b3e";
     GalaxyDataset.extension := "vcf";
     GalaxyDataset.reference_name := "GRCh38" |}.

Definition with_origins : arguments := {| skip_origins := false |}.

(** Another upload on the same reference. *)
Definition other_dataset : GalaxyDataset.t :=
  {| GalaxyDataset.name := "second upload";
     GalaxyDataset.id := "bbd44e69cb8906b5";
     GalaxyDataset.uuid := "5a1b2c3d";
     GalaxyDataset.extension := "vcf";
     GalaxyDataset.reference_name := "GRCh38" |}.

(** A server that answers the request for the histories with an error
    and a JSON body without the field. *)
Definition gi_error : GalaxyInstance :=
  {| base_url := "http://localhost:8080";
     make_get_request := fun _ =>
       inr {| status_code := 500;
              content := Some (JObj [("err_msg", JStr "Internal Server Error")]) |};
     get_datasets_page := fun _ _ _ => [];
     show_dataset := describe;
     download := fun _ => inr vcf_text |}.

(** The same with a body that is not JSON. *)
Definition gi_html : GalaxyInstance :=
  {| base_url := "http://localhost:8080";
     make_get_request := fun _ =>
       inr {| status_code := 502; content := None |};
     get_datasets_page := fun _ _ _ => [];
     show_dataset := describe;
     download := fun _ => inr vcf_text |}.

Definition dataset_file : string := "/tmp/dataset-uuid-f2db41e1fa331b3e".
Definition metadata_file : string := "/tmp/metadata-uuid-f2db41e1fa331b3e".

(** The world once the dataset is downloaded and its metadata written. *)
Definition w_ready : world mem :=
  snd (prepare_metadata_file mem the_dataset metadata_file
         (snd (download_dataset mem gi_one the_dataset dataset_file w0))).

End Scenario.

(** ** Further notions for the enumeration *)

(** A reference name the filter maps to itself. *)
Definition normalized (d : GalaxyDataset.t) : Prop :=
  match_reference (GalaxyDataset.reference_name d)
  = Some (GalaxyDataset.reference_name d).

(** What the loop body makes of an entry whose description is complete:
    the dataset with its reference name normalized, when the filter
    matches. *)
Definition dataset_of_entry (gi : GalaxyInstance) (e : api_entry)
  : option GalaxyDataset.t :=
  match GalaxyDataset.init (show_dataset gi (entry_id e)) with
  | inr d =>
      match match_reference (GalaxyDataset.reference_name d) with
      | Some g => Some (GalaxyDataset.set_reference_name g d)
      | None => None
      end
  | inl _ => None
  end.

(** The warning for an entry whose description is complete, when the filter
    does not match. *)
Definition warning_of_entry (gi : GalaxyInstance) (e : api_entry)
  : list log_record :=
  match GalaxyDataset.init (show_dataset gi (entry_id e)) with
  | inr d =>
      match match_reference (GalaxyDataset.reference_name d) with
      | Some _ => []
      | None => [unknown_reference_warning d]
      end
  | inl _ => []
  end.

(** The entries of the pages number 0 to [k - 1]. *)
Definition entries_before (gi : GalaxyInstance) (history_id : json) (k : nat)
  : list api_entry :=
  flat_map (fun i => get_datasets_page gi history_id limit (offset_of i))
    (seq 0 k).

(** ** Further notions for the metadata document *)

(** Whether [_([a-z])] matches somewhere in the text. *)
Fixpoint has_snake_joint (s : string) : bool :=
  match s with
  | String c rest =>
      match rest with
      | String d _ =>
          (Ascii.eqb c "_"%char && is_az d) || has_snake_joint rest
      | EmptyString => false
      end
  | EmptyString => false
  end.

(** The characters [json.dumps] leaves as they are: from the space to the
    tilde. *)
Definition printable (c : ascii) : bool :=
  ((32 <=? code c) && (code c <=? 126))%N.

Definition all_printable (s : string) : bool :=
  forallb printable (String.list_ascii_of_string s).

(** ** Further notions for a cycle *)

(** What the download of a cycle leaves at the destination: the bytes when
    it succeeds; when it fails, the incomplete file of the transfer, or
    nothing new. *)
Definition left_by_download (gi : GalaxyInstance) (d : GalaxyDataset.t)
  : option string :=
  match download gi (GalaxyDataset.id d) with
  | inr bytes => Some bytes
  | inl (_, remains) => remains
  end.

(** The files after the download of a cycle. *)
Definition files_after_download (gi : GalaxyInstance) (d : GalaxyDataset.t)
  (fs : gmap string string) : gmap string string :=
  match left_by_download gi d with
  | Some text => <[dataset_path d := text]> fs
  | None => fs
  end.

(** The message of [download_dataset]. *)
Definition download_failure (e : string) : log_record :=
  {| lvl := CRITICAL;
     msg := "something went wrong while downloading file - " +:+ e |}.

Definition next_file (d : GalaxyDataset.t) : log_record :=
  {| lvl := INFO; msg := "next file is " +:+ GalaxyDataset.name d |}.

(** A text without the single quote. *)
Definition quote_free (s : string) : Prop :=
  ¬ In (ascii_of_N 39) (String.list_ascii_of_string s).

(** ** Relations between the world before and after a computation *)

(** [m] takes every world to one that [R] relates to it, whatever the
    outcome. *)
Definition keeps {X : externals} {A : Type}
  (R : world X -> world X -> Prop) (m : M X A) : Prop :=
  ∀ w, R w (snd (m w)).

(** Nothing is taken back: the log, the calls and the origin file are
    extended and the clock does not go back. *)
Definition extends {X : externals} (w w' : world X) : Prop :=
  (∃ records, w_log X w' = w_log X w ++ records)
  ∧ (∃ calls, w_calls X w' = w_calls X w ++ calls)
  ∧ (∃ text, w_origins X w' = w_origins X w +:+ text)
  ∧ (w_clock X w <= w_clock X w')%nat.

(** No origin is tracked: the origin file is as it was and no query was
    sent to the database. *)
Definition untracked {X : externals} (w w' : world X) : Prop :=
  w_origins X w' = w_origins X w
  ∧ ∃ calls, w_calls X w' = w_calls X w ++ calls
             ∧ Forall (fun c => ∀ query, c ≠ Fetch query) calls.

(** No file is removed. *)
Definition no_file_removed {X : externals} (w w' : world X) : Prop :=
  ∀ path, is_Some (w_fs X w !! path) -> is_Some (w_fs X w' !! path).

(** ** [set_up_logging] *)

(** The numeric levels of [logging]. *)
Definition levelno (l : level) : Z :=
  match l with
  | INFO => 20
  | WARNING => 30
  | CRITICAL => 50
  end.

(** The level [set_up_logging] gives to [logging.basicConfig]: [DEBUG] is
    10, [INFO] is 20 and [WARN] is 30. *)
Definition set_up_logging (verbosity : Z) : Z :=
  if 1 <? verbosity then 10
  else if verbosity =? 1 then 20
  else 30.

(** The records a logger configured with [threshold] lets through: those
    whose level is not below it. *)
Definition emitted (threshold : Z) (log : list log_record) : list log_record :=
  filter (fun r => threshold <= levelno (lvl r)) log.

(** ** [set_up_galaxy_instance] *)

(** What the function takes from Python and [bioblend]: the constructor
    [GalaxyInstance(url, key=key)], which gives an instance or raises (the
    text of the exception is kept), and [str] on a decoded JSON value and on
    an exception, as [format] calls it. *)
Record startup := {
  galaxy_instance : string -> string -> string + GalaxyInstance;
  str_json : json -> string;
  str_exn : exn -> string
}.

Section Startup.

Context (X : externals) (P : startup).

(** [exit(status)]: it raises [SystemExit], which [except Exception] does
    not catch. *)
Definition py_exit {A : Type} (status : Z) : M X A := fun w => (Exit status, w).

(** [try: body / except Exception as e: handler(e)]. *)
Definition try_except {A : Type} (body : M X A) (handler : exn -> M X A)
  : M X A := fun w =>
  match body w with
  | (Exc e, w') => handler e w'
  | r => r
  end.

Definition set_up_galaxy_instance (galaxy_url galaxy_key : string)
  : M X GalaxyInstance :=
  logging X INFO ("trying to connect to galaxy at " +:+ galaxy_url);;
  gi ← match galaxy_instance P galaxy_url galaxy_key with
       | inr gi => mret gi
       | inl e =>
           logging X CRITICAL
             ("failed to guess URL from " +:+ dq +:+ galaxy_url +:+ dq
              +:+ " - " +:+ e);;
           py_exit 2
       end;
  try_except
    (response ← lift X (make_get_request gi (galaxy_url +:+ "/api/whoami"));
     content ← lift X (json_loads (content response));
     (if bool_decide (status_code response ≠ 200)
      then
        err_msg ← lift X (py_getitem content "err_msg");
        logging X CRITICAL
          ("connection test failed - got HTTP status " +:+ dq
           +:+ str_of_int (status_code response) +:+ dq
           +:+ " with message " +:+ dq +:+ str_json P err_msg +:+ dq);;
        py_exit 2
      else mret tt);;
     username ← lift X (py_getitem content "username");
     logging X INFO
       ("connection successful - logged in as user " +:+ dq
        +:+ str_json P username +:+ dq))
    (fun e =>
       logging X CRITICAL
         ("exception during connection test - " +:+ dq +:+ str_exn P e
          +:+ dq);;
       py_exit 2);;
  mret gi.

End Startup.

(** ** More concrete runs *)

Module MoreRuns.

Import Scenario.

(** A history with a human dataset and a mouse dataset on the first page
    and another human dataset on the second. *)
Definition gi_mixed : GalaxyInstance :=
  server [[e_good; e_mouse]; [{| entry_id := "bbd44e69cb8906b5" |}]].

(** A server that answers every page request with the same page. *)
Definition gi_forever : GalaxyInstance :=
  {| base_url := "http://localhost:8080";
     make_get_request := make_get_request gi_one;
     get_datasets_page := fun _ _ _ => [e_good];
     show_dataset := describe;
     download := fun _ => inr vcf_text |}.

(** [str] on the values and exceptions of the runs below. *)
Definition python : startup :=
  {| galaxy_instance := fun url _ =>
       if String.eqb url "http://localhost:8080" then inr gi_one
       else inl "no such host";
     str_json := fun v => match v with JStr s => s | _ => json_dumps v end;
     str_exn := fun e => match e with
                         | KeyError k => "'" +:+ k +:+ "'"
                         | MissingFieldException m | ForeignError m => m
                         | _ => EmptyString
                         end |}.

(** A server whose [whoami] names the user. *)
Definition gi_admin : GalaxyInstance :=
  {| base_url := "http://galaxy";
     make_get_request := fun _ =>
       inr {| status_code := 200;
              content := Some (JObj [("username", JStr "admin")]) |};
     get_datasets_page := fun _ _ _ => [];
     show_dataset := describe;
     download := fun _ => inr vcf_text |}.

Definition python_admin : startup :=
  {| galaxy_instance := fun _ _ => inr gi_admin;
     str_json := str_json python;
     str_exn := str_exn python |}.

Definition without_origins : arguments := {| skip_origins := true |}.

(** A server whose downloads fail before anything is written. *)
Definition gi_offline : GalaxyInstance :=
  {| base_url := "http://localhost:8080";
     make_get_request := make_get_request gi_one;
     get_datasets_page := get_datasets_page gi_one;
     show_dataset := describe;
     download := fun _ => inl ("connection refused", None) |}.

(** A server whose downloads break off and leave an incomplete file. *)
Definition gi_cut : GalaxyInstance :=
  {| base_url := "http://localhost:8080";
     make_get_request := make_get_request gi_one;
     get_datasets_page := get_datasets_page gi_one;
     show_dataset := describe;
     download := fun _ => inl ("connection reset", Some "1 101 . A") |}.

(** The same libraries on a machine whose [/tmp] cannot be written. *)
Definition mem_locked : externals :=
  {| conn := memdb;
     open_w := fun path => Some (FileNotFoundError path);
     parse_vcf := parse_vcf mem;
     load_metadata := mem_load_metadata;
     load_datafile := mem_load_datafile;
     conn_fetch := mem_fetch;
     now_strftime := now_strftime mem |}.

Definition w_locked : world mem_locked :=
  Build_world mem_locked [] [] ∅ db0 EmptyString 0.

(** A world in which the dataset file of an earlier run is still there. *)
Definition w_leftover : world mem :=
  put_fs mem (<[Scenario.dataset_file := vcf_text]> ∅) w0.

Definition second_dataset : GalaxyDataset.t :=
  {| GalaxyDataset.name := "variants of bbd44e69cb8906b5";
     GalaxyDataset.id := "bbd44e69cb8906b5";
     GalaxyDataset.uuid := "uuid-bbd44e69cb8906b5";
     GalaxyDataset.extension := "vcf";
     GalaxyDataset.reference_name := "hg19" |}.

End MoreRuns.

(** * Properties *)

(** ** Text *)

Lemma append_cons (c : ascii) (a b : string) :
  String c a +:+ b = String c (a +:+ b).
Proof. reflexivity. Qed.

Lemma append_empty_l (a : string) : EmptyString +:+ a = a.
Proof. reflexivity. Qed.

Lemma append_assoc (a b c : string) : (a +:+ b) +:+ c = a +:+ b +:+ c.
Proof.
  induction a as [|x a IH]; [done|]. by rewrite !append_cons, IH.
Qed.

Lemma append_empty_r (a : string) : a +:+ EmptyString = a.
Proof. induction a as [|x a IH]; [done|]. by rewrite append_cons, IH. Qed.

Lemma strip_prefix_app (p s : string) : strip_prefix p (p +:+ s) = Some s.
Proof.
  induction p as [|a p IH]; [done|].
  rewrite append_cons. simpl. by rewrite Ascii.eqb_refl.
Qed.

Lemma strip_prefix_Some (p s r : string) :
  strip_prefix p s = Some r -> s = p +:+ r.
Proof.
  revert s; induction p as [|a p IH]; intros [|b s]; simpl;
    try (by intros [= <-]).
  destruct (Ascii.eqb a b) eqn:E; [|done].
  apply Ascii.eqb_eq in E as ->. intros H.
  by rewrite append_cons, (IH _ H).
Qed.

(** What [span_digits] returns: a split of the text into digits and a rest
    that does not start with a digit. *)
Lemma span_digits_spec (s ds rest : string) :
  span_digits s = (ds, rest) ->
  s = ds +:+ rest ∧ all_digits ds = true ∧ starts_with_digit rest = false.
Proof.
  revert ds rest; induction s as [|c s IH]; intros ds rest; simpl.
  - intros [= <- <-]. done.
  - destruct (is_digit c) eqn:Hc.
    + destruct (span_digits s) as [ds' rest'] eqn:E.
      intros [= <- <-]. destruct (IH _ _ eq_refl) as (-> & Hd & Hr).
      rewrite append_cons. unfold all_digits in *; simpl. by rewrite Hc, Hd.
    + intros [= <- <-]. simpl. by rewrite Hc.
Qed.

(** The digits found at the head of [ds +:+ rest], when [ds] are digits. *)
Lemma span_digits_app (ds rest : string) :
  all_digits ds = true ->
  span_digits (ds +:+ rest)
  = (ds +:+ fst (span_digits rest), snd (span_digits rest)).
Proof.
  unfold all_digits. induction ds as [|c ds IH]; simpl.
  - intros _. rewrite !append_empty_l. by destruct (span_digits rest).
  - intros [Hc Hd]%andb_prop. rewrite !append_cons. simpl.
    by rewrite Hc, (IH Hd).
Qed.

Lemma span_digits_no_digit (rest : string) :
  starts_with_digit rest = false -> span_digits rest = (EmptyString, rest).
Proof. destruct rest as [|c r]; simpl; [done|]. by intros ->. Qed.

Lemma family_digits_app (family ds rest : string) :
  ds ≠ EmptyString -> all_digits ds = true ->
  family_digits family (family +:+ ds +:+ rest)
  = Some (family +:+ ds +:+ fst (span_digits rest)).
Proof.
  intros Hne Hd. unfold family_digits.
  rewrite strip_prefix_app, (span_digits_app _ _ Hd).
  destruct ds as [|c ds]; [done|]. done.
Qed.

Lemma family_digits_form (family s g : string) :
  family_digits family s = Some g ->
  ∃ ds rest, ds ≠ EmptyString ∧ all_digits ds = true
             ∧ starts_with_digit rest = false
             ∧ s = family +:+ ds +:+ rest ∧ g = family +:+ ds.
Proof.
  unfold family_digits.
  destruct (strip_prefix family s) as [r|] eqn:Hp; [|done].
  apply strip_prefix_Some in Hp as ->.
  destruct (span_digits r) as [ds rest] eqn:Hs.
  apply span_digits_spec in Hs as (-> & Hd & Hr).
  destruct ds as [|c ds]; [done|]. intros [= <-].
  exists (String c ds), rest. done.
Qed.

Lemma family_digits_exact (family ds : string) :
  ds ≠ EmptyString -> all_digits ds = true ->
  family_digits family (family +:+ ds) = Some (family +:+ ds).
Proof.
  intros Hne Hd.
  pose proof (family_digits_app family ds EmptyString Hne Hd) as H.
  simpl in H. by rewrite !append_empty_r in H.
Qed.

Lemma family_digits_other (s : string) :
  family_digits "GRCh" ("hg" +:+ s) = None.
Proof. done. Qed.

(** The group of a match is matched again as itself, so the assignment
    [dataset.reference_name = match.group(1)] on an object that already
    went through it writes the value the object holds. *)
Lemma match_reference_idem (s g : string) :
  match_reference s = Some g -> match_reference g = Some g.
Proof.
  unfold match_reference.
  destruct (family_digits "GRCh" s) as [g1|] eqn:E1.
  - intros [= <-].
    apply family_digits_form in E1 as (ds & rest & Hne & Hd & _ & _ & ->).
    by rewrite (family_digits_exact _ _ Hne Hd).
  - intros E2.
    apply family_digits_form in E2 as (ds & rest & Hne & Hd & _ & _ & ->).
    by rewrite family_digits_other, (family_digits_exact _ _ Hne Hd).
Qed.

Lemma match_reference_form (s : string) :
  reference_form s -> is_Some (match_reference s).
Proof.
  intros (family & ds & rest & Hf & Hne & Hd & ->).
  unfold match_reference. destruct Hf as [-> | ->].
  - rewrite (family_digits_app _ _ _ Hne Hd). eauto.
  - rewrite family_digits_other, (family_digits_app _ _ _ Hne Hd). eauto.
Qed.

Lemma match_reference_Some_form (s g : string) :
  match_reference s = Some g -> reference_form s.
Proof.
  unfold match_reference.
  destruct (family_digits "GRCh" s) as [g1|] eqn:E1.
  - intros _.
    apply family_digits_form in E1 as (ds & rest & Hne & Hd & _ & -> & _).
    exists "GRCh", ds, rest. auto.
  - intros E2.
    apply family_digits_form in E2 as (ds & rest & Hne & Hd & _ & -> & _).
    exists "hg", ds, rest. auto.
Qed.

(** ** The enumeration *)

Lemma flat_map_seq_S {A : Type} (f : nat -> list A) (n : nat) :
  flat_map f (seq 0 (S n)) = f 0%nat ++ flat_map (fun i => f (S i)) (seq 0 n).
Proof.
  change (seq 0 (S n)) with (0%nat :: seq 1 n). simpl. f_equal.
  rewrite <- seq_shift. generalize (seq 0 n) as l.
  induction l as [|i l IH]; simpl; [done|]. by rewrite IH.
Qed.

Section Enumeration.

Context (X : externals).

Ltac run :=
  cbv [mbind M_bind mret M_ret record_call logging raise lift
         result_bind result_ret]; simpl.

(** The constructor raises nothing but [MissingFieldException]: after the
    loop over the keys every read finds its key. *)
Lemma init_cases (info : gmap string string) :
  (∃ d, GalaxyDataset.init info = inr d
        ∧ info !! "metadata_dbkey" = Some (GalaxyDataset.reference_name d)
        ∧ info !! "uuid" = Some (GalaxyDataset.uuid d))
  ∨ (∃ key, key ∈ GalaxyDataset.required_keys ∧ info !! key = None
            ∧ GalaxyDataset.init info
              = inl (MissingFieldException
                       ("key " +:+ dq +:+ key +:+ dq +:+ " not defined"))).
Proof.
  unfold GalaxyDataset.init, GalaxyDataset.required_keys, getitem.
  run.
  destruct (info !! "name") eqn:E1;
    [|right; exists "name"; split; [set_solver|done]].
  destruct (info !! "id") eqn:E2;
    [|right; exists "id"; split; [set_solver|done]].
  destruct (info !! "uuid") eqn:E3;
    [|right; exists "uuid"; split; [set_solver|done]].
  destruct (info !! "extension") eqn:E4;
    [|right; exists "extension"; split; [set_solver|done]].
  destruct (info !! "metadata_dbkey") eqn:E5;
    [|right; exists "metadata_dbkey"; split; [set_solver|done]].
  left. eexists. split; [reflexivity|]. done.
Qed.

(** An entry whose description is complete. *)
Lemma entry_body_constructed gi e l w d :
  GalaxyDataset.init (show_dataset gi (entry_id e)) = inr d ->
  entry_body X gi e l w
  = match match_reference (GalaxyDataset.reference_name d) with
    | None =>
        (Val {| datasets := datasets l; dataset := Some d |},
         add_log X (unknown_reference_warning d)
           (add_call X (ShowDataset (entry_id e)) w))
    | Some g =>
        let d' := GalaxyDataset.set_reference_name g d in
        (Val {| datasets := datasets l ++ [d']; dataset := Some d' |},
         add_call X (ShowDataset (entry_id e)) w)
    end.
Proof.
  intros Hinit. unfold entry_body. run. rewrite Hinit. simpl.
  by destruct (match_reference (GalaxyDataset.reference_name d)).
Qed.

(** An entry whose description lacks a key: after the warning the body
    goes on with whatever [dataset] holds. *)
Lemma entry_body_missing gi e l w m :
  GalaxyDataset.init (show_dataset gi (entry_id e))
  = inl (MissingFieldException m) ->
  entry_body X gi e l w
  = let w' := add_log X (missing_field_warning (entry_id e) m)
                (add_call X (ShowDataset (entry_id e)) w) in
    match dataset l with
    | None => (Exc (UnboundLocalError "dataset"), w')
    | Some d =>
        match match_reference (GalaxyDataset.reference_name d) with
        | None => (Val l, add_log X (unknown_reference_warning d) w')
        | Some g =>
            let d' := GalaxyDataset.set_reference_name g d in
            (Val {| datasets := datasets l ++ [d']; dataset := Some d' |}, w')
        end
    end.
Proof.
  intros Hinit. unfold entry_body. run. rewrite Hinit. simpl.
  destruct (dataset l) as [d|]; [|done].
  by destruct (match_reference (GalaxyDataset.reference_name d)).
Qed.

(** Once [dataset] is bound, or when the description is complete, the body
    returns, [dataset] is bound afterwards, and one call was made. *)
Lemma entry_body_returns gi e l w :
  is_Some (dataset l)
  ∨ (∃ d, GalaxyDataset.init (show_dataset gi (entry_id e)) = inr d) ->
  ∃ l' w', entry_body X gi e l w = (Val l', w')
           ∧ is_Some (dataset l')
           ∧ w_calls X w' = w_calls X w ++ [ShowDataset (entry_id e)].
Proof.
  intros Hb.
  destruct (init_cases (show_dataset gi (entry_id e)))
    as [(d & Hd & _) | (key & _ & _ & Hm)].
  - rewrite (entry_body_constructed _ _ _ _ _ Hd).
    destruct (match_reference _); eauto.
  - destruct Hb as [[d Hd] | [d Hd]]; [|congruence].
    rewrite (entry_body_missing _ _ _ _ _ Hm), Hd. simpl.
    destruct (match_reference _); eauto 10.
Qed.

Lemma for_each_entries_returns gi es l w :
  is_Some (dataset l) ->
  ∃ l' w', for_each X es (entry_body X gi) l w = (Val l', w')
           ∧ is_Some (dataset l')
           ∧ w_calls X w'
             = w_calls X w ++ map (fun e => ShowDataset (entry_id e)) es.
Proof.
  revert l w. induction es as [|e es IH]; intros l w Hl; simpl.
  - exists l, w. by rewrite app_nil_r.
  - destruct (entry_body_returns gi e l w (or_introl Hl))
      as (l1 & w1 & E1 & Hl1 & C1).
    destruct (IH l1 w1 Hl1) as (l2 & w2 & E2 & Hl2 & C2).
    exists l2, w2. cbv [mbind M_bind]. rewrite E1, E2. split; [done|].
    split; [done|]. by rewrite C2, C1, <- app_assoc.
Qed.

(** The same for a page whose first entry has a complete description,
    whatever [dataset] holds before. *)
Lemma first_page_returns gi e es l w :
  (∃ d, GalaxyDataset.init (show_dataset gi (entry_id e)) = inr d) ->
  ∃ l' w', for_each X (e :: es) (entry_body X gi) l w = (Val l', w')
           ∧ is_Some (dataset l')
           ∧ w_calls X w'
             = w_calls X w
               ++ map (fun e => ShowDataset (entry_id e)) (e :: es).
Proof.
  intros He. simpl.
  destruct (entry_body_returns gi e l w (or_intror He))
    as (l1 & w1 & E1 & Hl1 & C1).
  destruct (for_each_entries_returns gi es l1 w1 Hl1)
    as (l2 & w2 & E2 & Hl2 & C2).
  exists l2, w2. cbv [mbind M_bind]. rewrite E1, E2. split; [done|].
  split; [done|]. by rewrite C2, C1, <- app_assoc.
Qed.

Lemma offset_of_S (o : Z) (i : nat) :
  o + offset_of (S i) = (o + limit) + offset_of i.
Proof. unfold offset_of, limit. lia. Qed.

(** The loop from a request on, with [dataset] bound: it asks for the
    pages one after the other and returns at the first empty one. *)
Lemma get_datasets_from_returns gi hid k : ∀ fuel o l w,
  (∀ i, (i < k)%nat -> get_datasets_page gi hid limit (o + offset_of i) ≠ []) ->
  get_datasets_page gi hid limit (o + offset_of k) = [] ->
  is_Some (dataset l) ->
  (k < fuel)%nat ->
  ∃ ds w', get_datasets_from X fuel gi hid o l w = (Val ds, w')
           ∧ w_calls X w'
             = w_calls X w
               ++ flat_map (fun i => page_calls gi hid (o + offset_of i))
                    (seq 0 (S k)).
Proof.
  induction k as [|k IH]; intros fuel o l w Hfull Hempty Hl Hfuel;
    (destruct fuel as [|fuel]; [lia|]).
  - replace (o + offset_of 0) with o in * by (unfold offset_of; lia).
    simpl. cbv [mbind M_bind record_call]. rewrite Hempty. simpl.
    eexists _, _. split; [reflexivity|]. simpl.
    replace (o + offset_of 0) with o by (unfold offset_of; lia).
    unfold page_calls. by rewrite Hempty.
  - pose proof (Hfull 0%nat ltac:(lia)) as Hne.
    replace (o + offset_of 0) with o in Hne by (unfold offset_of; lia).
    destruct (for_each_entries_returns gi
                (get_datasets_page gi hid limit o) l
                (add_call X (GetDatasets hid limit o) w) Hl)
      as (l1 & w1 & E1 & Hl1 & C1).
    destruct (IH fuel (o + limit) l1 w1) as (ds & w2 & E2 & C2).
    + intros i Hi. rewrite <- offset_of_S. apply Hfull. lia.
    + by rewrite <- offset_of_S.
    + done.
    + lia.
    + exists ds, w2. split.
      * simpl. cbv [mbind M_bind record_call]. rewrite E1.
        rewrite bool_decide_eq_false_2; [done|].
        destruct (get_datasets_page gi hid limit o); simpl; [done|lia].
      * rewrite C2, C1.
        rewrite (flat_map_seq_S (fun i => page_calls gi hid (o + offset_of i))).
        replace (o + offset_of 0) with o by (unfold offset_of; lia).
        change (page_calls gi hid o)
          with (GetDatasets hid limit o
                :: map (fun e => ShowDataset (entry_id e))
                     (get_datasets_page gi hid limit o)).
        cbn [w_calls add_call]. rewrite <- !app_assoc. cbn [app].
        do 3 f_equal. apply flat_map_ext. intros i. by rewrite offset_of_S.
Qed.

Lemma init_complete (info : gmap string string) :
  complete info -> ∃ d, GalaxyDataset.init info = inr d.
Proof.
  intros Hc. destruct (init_cases info) as [(d & Hd & _) | (key & Hk & Hn & _)].
  - eauto.
  - destruct (Hc key Hk) as [v Hv]. congruence.
Qed.

Lemma requested_offsets_pages gi hid (f : nat -> Z) (idxs : list nat) :
  requested_offsets (flat_map (fun i => page_calls gi hid (f i)) idxs)
  = map f idxs.
Proof.
  unfold requested_offsets.
  induction idxs as [|i idxs IH]; [done|].
  cbn [flat_map map]. rewrite flat_map_app, IH. unfold page_calls.
  cbn [flat_map app]. f_equal.
  generalize (get_datasets_page gi hid limit (f i)) as es.
  induction es as [|e es IHes]; [done|]. exact IHes.
Qed.

Lemma shown_entries_pages gi hid (f : nat -> Z) (idxs : list nat) :
  shown_entries (flat_map (fun i => page_calls gi hid (f i)) idxs)
  = flat_map (fun i => map entry_id (get_datasets_page gi hid limit (f i)))
      idxs.
Proof.
  unfold shown_entries.
  induction idxs as [|i idxs IH]; [done|].
  cbn [flat_map]. rewrite flat_map_app, IH. f_equal. unfold page_calls.
  cbn [flat_map app].
  generalize (get_datasets_page gi hid limit (f i)) as es.
  induction es as [|e es IHes]; [done|]. cbn [map flat_map app].
  by rewrite IHes.
Qed.

(** X24. Provided that the first entry of the first page, if there is
    one, has a complete description, the enumeration asks for pages of the
    fixed size 500 at the offsets 0, 500, 1000, ... and returns at the
    first request that is answered with no entry, whatever the sizes of
    the pages before: when the request number [k] is the first one with an
    empty answer, any fuel above [k] lets [get_datasets] return after
    exactly the requests 0 to [k], having asked for the description of
    exactly the entries of these pages. *)
Theorem get_datasets_stops_at_first_empty_page gi hid (k fuel : nat) w :
  (∀ i, (i < k)%nat -> get_datasets_page gi hid limit (offset_of i) ≠ []) ->
  get_datasets_page gi hid limit (offset_of k) = [] ->
  (∀ e, head (get_datasets_page gi hid limit 0) = Some e ->
        complete (show_dataset gi (entry_id e))) ->
  (k < fuel)%nat ->
  ∃ ds w' cs,
    get_datasets X fuel gi hid w = (Val ds, w')
    ∧ w_calls X w' = w_calls X w ++ cs
    ∧ cs = flat_map (fun i => page_calls gi hid (offset_of i)) (seq 0 (S k))
    ∧ requested_offsets cs = map offset_of (seq 0 (S k))
    ∧ shown_entries cs
      = flat_map (fun i => map entry_id
                             (get_datasets_page gi hid limit (offset_of i)))
          (seq 0 (S k)).
Proof.
  intros Hfull Hempty Hfirst Hfuel.
  assert (∃ ds w',
    get_datasets X fuel gi hid w = (Val ds, w')
    ∧ w_calls X w'
      = w_calls X w
        ++ flat_map (fun i => page_calls gi hid (offset_of i)) (seq 0 (S k)))
    as (ds & w' & E & C).
  { unfold get_datasets. destruct fuel as [|fuel]; [lia|].
    destruct k as [|k].
    - change (offset_of 0) with 0 in Hempty.
      simpl. cbv [mbind M_bind record_call]. rewrite Hempty. simpl.
      eexists _, _. split; [reflexivity|].
      unfold page_calls. change (offset_of 0) with 0. by rewrite Hempty.
    - pose proof (Hfull 0%nat ltac:(lia)) as Hne.
      change (offset_of 0) with 0 in Hne.
      destruct (get_datasets_page gi hid limit 0) as [|e es] eqn:Hpage;
        [done|].
      destruct (first_page_returns gi e es
                  {| datasets := []; dataset := None |}
                  (add_call X (GetDatasets hid limit 0) w))
        as (l1 & w1 & E1 & Hl1 & C1).
      { apply init_complete, Hfirst. done. }
      destruct (get_datasets_from_returns gi hid k fuel (0 + limit) l1 w1)
        as (ds & w2 & E2 & C2).
      + intros i Hi. rewrite <- offset_of_S. apply Hfull. lia.
      + by rewrite <- offset_of_S.
      + done.
      + lia.
      + exists ds, w2. split.
        * cbn [get_datasets_from]. cbv [mbind M_bind record_call].
          rewrite Hpage, E1. rewrite bool_decide_eq_false_2; [done|].
          simpl. lia.
        * rewrite C2, C1.
          rewrite (flat_map_seq_S (fun i => page_calls gi hid (offset_of i))).
          change (page_calls gi hid (offset_of 0))
            with (GetDatasets hid limit 0
                  :: map (fun e => ShowDataset (entry_id e))
                       (get_datasets_page gi hid limit 0)).
          rewrite Hpage.
          cbn [w_calls add_call]. rewrite <- !app_assoc. cbn [app].
          do 3 f_equal. apply flat_map_ext. intros i.
          by rewrite <- offset_of_S. }
  eexists ds, w', _. split; [done|]. split; [exact C|]. split; [done|].
  split; [apply requested_offsets_pages | apply shown_entries_pages].
Qed.

End Enumeration.



Import Scenario.

Lemma required_key_cases (P : string -> Prop) :
  P "name" -> P "id" -> P "uuid" -> P "extension" -> P "metadata_dbkey" ->
  ∀ key, key ∈ GalaxyDataset.required_keys -> P key.
Proof.
  intros H1 H2 H3 H4 H5 key Hk. unfold GalaxyDataset.required_keys in Hk.
  repeat (apply elem_of_cons in Hk as [-> | Hk]; [assumption|]).
  by apply elem_of_nil in Hk.
Qed.

Lemma good_complete : complete good.
Proof.
  refine (required_key_cases (fun key => is_Some (good !! key)) _ _ _ _ _);
    vm_compute; eauto.
Qed.

(** Pages of 500, 500, 37 and 0 entries: four requests, 1037 entries. *)
Lemma get_datasets_stops_at_first_empty_page_witness :
  ∃ ds w' cs,
    get_datasets mem 4 gi_pages h1 w0 = (Val ds, w')
    ∧ w_calls mem w' = w_calls mem w0 ++ cs
    ∧ requested_offsets cs = [0; 500; 1000; 1500]
    ∧ length (shown_entries cs) = 1037%nat.
Proof.
  destruct (get_datasets_stops_at_first_empty_page mem gi_pages h1 3 4 w0)
    as (ds & w' & cs & E & C & _ & Hr & Hs).
  - intros i Hi. destruct i as [|[|[|i]]]; [by vm_compute ..|lia].
  - by vm_compute.
  - intros e [= <-]. exact good_complete.
  - lia.
  - exists ds, w', cs. rewrite Hr, Hs. repeat split; try done.
Defined.

(** C1. An entry whose description lacks a key is not skipped.  On the
    page of the specification's example (an entry without uuid, then a
    mouse dataset) [get_datasets] raises [UnboundLocalError] at the first
    entry, after the warning: the second entry and the next page are never
    looked at.  After a human dataset, an entry without uuid makes
    [get_datasets] append the human dataset a second time. *)
Theorem missing_field_entry_is_not_skipped :
  fst (get_datasets mem 5 gi_skip h1 w0) = Exc (UnboundLocalError "dataset")
  ∧ w_log mem (snd (get_datasets mem 5 gi_skip h1 w0))
    = [missing_field_warning "33b43b4e7093c91f"
         ("key " +:+ dq +:+ "uuid" +:+ dq +:+ " not defined")]
  ∧ w_calls mem (snd (get_datasets mem 5 gi_skip h1 w0))
    = [GetDatasets h1 500 0; ShowDataset "33b43b4e7093c91f"]
  ∧ fst (get_datasets mem 5 gi_stale h1 w0) = Val [the_dataset; the_dataset]
  ∧ shown_entries (w_calls mem (snd (get_datasets mem 5 gi_stale h1 w0)))
    = ["f2db41e1fa331b3e"; "33b43b4e7093c91f"].
Proof. repeat split; vm_compute; reflexivity. Qed.

(** C5. The enumeration does not always end at the first empty page.  On
    a history whose pages are an entry without uuid and a mouse dataset,
    then a human dataset, then nothing, the first empty page is the third;
    [get_datasets] asks for the page at offset 0 only, asks for the
    description of its first entry only, and raises [UnboundLocalError]:
    the entries are not all considered and no list is returned, whatever
    the fuel. *)
Theorem incomplete_entry_ends_the_paging :
  get_datasets_page gi_skip h1 limit (offset_of 0) = [e_no_uuid; e_mouse]
  ∧ get_datasets_page gi_skip h1 limit (offset_of 1) = [e_good]
  ∧ get_datasets_page gi_skip h1 limit (offset_of 2) = []
  ∧ ∀ fuel,
      fst (get_datasets mem (S fuel) gi_skip h1 w0)
      = Exc (UnboundLocalError "dataset")
      ∧ requested_offsets
          (w_calls mem (snd (get_datasets mem (S fuel) gi_skip h1 w0)))
        = [0]
      ∧ shown_entries
          (w_calls mem (snd (get_datasets mem (S fuel) gi_skip h1 w0)))
        = ["33b43b4e7093c91f"].
Proof.
  split; [reflexivity|]. split; [reflexivity|]. split; [reflexivity|].
  intros fuel.
  assert (get_datasets mem (S fuel) gi_skip h1 w0
          = (Exc (UnboundLocalError "dataset"),
             add_log mem
               (missing_field_warning "33b43b4e7093c91f"
                  ("key " +:+ dq +:+ "uuid" +:+ dq +:+ " not defined"))
               (add_call mem (ShowDataset "33b43b4e7093c91f")
                  (add_call mem (GetDatasets h1 limit 0) w0)))) as ->.
  { unfold get_datasets. cbn [get_datasets_from].
    cbv [mbind M_bind record_call].
    change (get_datasets_page gi_skip h1 limit 0) with [e_no_uuid; e_mouse].
    cbn [for_each]. cbv [mbind M_bind].
    by rewrite (entry_body_missing mem gi_skip e_no_uuid _ _
                  ("key " +:+ dq +:+ "uuid" +:+ dq +:+ " not defined")
                  eq_refl). }
  repeat split.
Qed.

Lemma not_reference_form (s : string) :
  match_reference s = None -> ¬ reference_form s.
Proof.
  intros Hn [g Hg]%match_reference_form. congruence.
Qed.

(** C4. A label made of a family prefix, GRCh or hg, one or more digits and
    a rest that does not go on with a digit is normalized to the prefix
    and the digits, the rest being dropped; a label that does not start
    with a family prefix and a digit has no match; and an entry with such a
    label, its description being complete, is skipped: the body logs one
    warning, appends nothing and returns without an exception. *)
Theorem reference_filter_keeps_family_and_digits :
  (∀ family ds rest,
     family = "GRCh" ∨ family = "hg" -> ds ≠ EmptyString ->
     all_digits ds = true -> starts_with_digit rest = false ->
     match_reference (family +:+ ds +:+ rest) = Some (family +:+ ds))
  ∧ (∀ s, ¬ reference_form s -> match_reference s = None)
  ∧ (∀ X gi e l w d,
       GalaxyDataset.init (show_dataset gi (entry_id e)) = inr d ->
       ¬ reference_form (GalaxyDataset.reference_name d) ->
       entry_body X gi e l w
       = (Val {| datasets := datasets l; dataset := Some d |},
          add_log X (unknown_reference_warning d)
            (add_call X (ShowDataset (entry_id e)) w))).
Proof.
  split; [|split].
  - intros family ds rest Hf Hne Hd Hr. unfold match_reference.
    assert (family_digits family (family +:+ ds +:+ rest)
            = Some (family +:+ ds)) as H.
    { rewrite (family_digits_app _ _ _ Hne Hd).
      rewrite (span_digits_no_digit _ Hr). simpl.
      by rewrite append_empty_r. }
    destruct Hf as [-> | ->].
    + by rewrite H.
    + by rewrite family_digits_other, H.
  - intros s Hs. destruct (match_reference s) as [g|] eqn:E; [|done].
    destruct Hs. by apply match_reference_Some_form in E.
  - intros X gi e l w d Hinit Hs.
    rewrite (entry_body_constructed X gi e l w d Hinit).
    destruct (match_reference (GalaxyDataset.reference_name d)) as [g|] eqn:E;
      [|done].
    destruct Hs. by apply match_reference_Some_form in E.
Qed.

Lemma reference_filter_keeps_family_and_digits_witness :
  match_reference "GRCh38.p13" = Some "GRCh38"
  ∧ match_reference "hg19" = Some "hg19"
  ∧ match_reference "mm10" = None
  ∧ fst (entry_body mem gi_skip e_mouse
           {| datasets := []; dataset := None |} w0)
    = Val {| datasets := [];
             dataset := Some {| GalaxyDataset.name := "variants of a799d38679e985db";
                                GalaxyDataset.id := "a799d38679e985db";
                                GalaxyDataset.uuid := "uuid-a799d38679e985db";
                                GalaxyDataset.extension := "vcf";
                                GalaxyDataset.reference_name := "mm10" |} |}.
Proof.
  destruct reference_filter_keeps_family_and_digits as (Hmatch & Hnone & Hskip).
  split; [|split; [|split]].
  - apply (Hmatch "GRCh" "38" ".p13"); [by left|done|done|done].
  - apply (Hmatch "hg" "19" EmptyString); [by right|done|done|done].
  - apply Hnone, not_reference_form. done.
  - erewrite Hskip; [done|by vm_compute|].
    apply not_reference_form. done.
Defined.

(** ** The metadata document *)

Lemma prepare_metadata_file_writes X d path (w : world X) :
  prepare_metadata_file X d path w
  = match open_w X path with
    | None =>
        (Val tt,
         put_fs X
           (<[path := BeaconMetadata.__json__ (metadata_in X d w)]> (w_fs X w))
           (tick X (tick X w)))
    | Some e => (Exc e, tick X (tick X w))
    end.
Proof.
  unfold prepare_metadata_file, write_file, now.
  cbv [mbind M_bind]. by destruct (open_w X path).
Qed.

(** The document of a dataset is what [prepare_metadata_file] writes. *)
Lemma prepare_metadata_file_document X d path (w : world X) :
  writes X path (BeaconMetadata.__json__ (metadata_in X d w)) w
    (prepare_metadata_file X d path w).
Proof.
  unfold writes. rewrite prepare_metadata_file_writes.
  destruct (open_w X path); simpl; [done|].
  by rewrite lookup_insert_eq.
Qed.

(** C8. The document written for a dataset is the serialization of a JSON
    object whose keys are, in this order, name, datasetId, description,
    assemblyId, externalUrl, accessType, createDateTime, updateDateTime,
    callCount, version and variantCount; each key is the attribute name
    with every underscore that precedes a letter of a-z dropped and that
    letter made a capital, and it carries the value of the attribute.  The document is in the
    file when [prepare_metadata_file] returns; the function raises, and
    writes nothing, only when [open] raises at the path. *)
Theorem metadata_document_has_camel_case_keys X d path (w : world X) :
  ∃ m,
    writes X path (json_dumps (JObj (BeaconMetadata.data m))) w
      (prepare_metadata_file X d path w)
    ∧ map fst (BeaconMetadata.data m)
      = ["name"; "datasetId"; "description"; "assemblyId"; "externalUrl";
         "accessType"; "createDateTime"; "updateDateTime"; "callCount";
         "version"; "variantCount"]
    ∧ BeaconMetadata.data m
      = map (fun item => (camel_case (fst item), snd item))
          (BeaconMetadata.vars m)
    ∧ map fst (BeaconMetadata.vars m)
      = ["name"; "dataset_id"; "description"; "assembly_id"; "external_url";
         "access_type"; "create_date_time"; "update_date_time"; "call_count";
         "version"; "variant_count"].
Proof.
  exists (metadata_in X d w).
  split; [apply prepare_metadata_file_document|done].
Qed.

(** C9. The call count and the variant count of the document written for a
    dataset are 123, whatever the dataset.  The document is in the
    file when [prepare_metadata_file] returns; the function raises, and
    writes nothing, only when [open] raises at the path. *)
Theorem metadata_counts_are_123 X d path (w : world X) :
  ∃ m,
    writes X path (json_dumps (JObj (BeaconMetadata.data m))) w
      (prepare_metadata_file X d path w)
    ∧ BeaconMetadata.call_count m = 123
    ∧ BeaconMetadata.variant_count m = 123
    ∧ dict_get (BeaconMetadata.data m) "callCount" = Some (JInt 123)
    ∧ dict_get (BeaconMetadata.data m) "variantCount" = Some (JInt 123).
Proof.
  exists (metadata_in X d w).
  split; [apply prepare_metadata_file_document|done].
Qed.

(** C3. Two datasets with the same normalized reference name get the same
    dataset identifier, in the metadata assembled for them and in the
    documents written, whatever their ids, uuids, names, the paths and the
    readings of the clock: the identifier is "galaxy-" followed by the
    reference name in lower case.  Each document is in its file when
    [prepare_metadata_file] returns; the function raises, and writes
    nothing, only when [open] raises at the path. *)
Theorem dataset_id_depends_on_reference_only X d1 d2 p1 p2 (w1 w2 : world X) :
  GalaxyDataset.reference_name d1 = GalaxyDataset.reference_name d2 ->
  writes X p1 (json_dumps (JObj (BeaconMetadata.data (metadata_in X d1 w1))))
    w1 (prepare_metadata_file X d1 p1 w1)
  ∧ writes X p2
      (json_dumps (JObj (BeaconMetadata.data (metadata_in X d2 w2))))
      w2 (prepare_metadata_file X d2 p2 w2)
  ∧ BeaconMetadata.dataset_id (metadata_in X d1 w1)
    = BeaconMetadata.dataset_id (metadata_in X d2 w2)
  ∧ BeaconMetadata.dataset_id (metadata_in X d1 w1)
    = "galaxy-" +:+ lower (GalaxyDataset.reference_name d1)
  ∧ dict_get (BeaconMetadata.data (metadata_in X d1 w1)) "datasetId"
    = Some (JStr ("galaxy-" +:+ lower (GalaxyDataset.reference_name d1)))
  ∧ dict_get (BeaconMetadata.data (metadata_in X d2 w2)) "datasetId"
    = Some (JStr ("galaxy-" +:+ lower (GalaxyDataset.reference_name d1))).
Proof.
  intros H.
  split; [apply prepare_metadata_file_document|].
  split; [apply prepare_metadata_file_document|].
  unfold metadata_in, assemble_metadata. cbn. by rewrite H.
Qed.

Lemma dataset_id_depends_on_reference_only_witness :
  BeaconMetadata.dataset_id (metadata_in mem the_dataset w0)
  = BeaconMetadata.dataset_id (metadata_in mem other_dataset w_ready)
  ∧ BeaconMetadata.dataset_id (metadata_in mem the_dataset w0) = "galaxy-grch38"
  ∧ dict_get (BeaconMetadata.data (metadata_in mem the_dataset w0)) "datasetId"
    = Some (JStr "galaxy-grch38")
  ∧ dict_get (BeaconMetadata.data (metadata_in mem other_dataset w_ready))
      "datasetId"
    = Some (JStr "galaxy-grch38").
Proof.
  exact (proj2 (proj2 (dataset_id_depends_on_reference_only mem the_dataset
                         other_dataset Scenario.metadata_file "/tmp/other"
                         w0 w_ready eq_refl))).
Defined.

(** ** The request for the histories *)

(** C10, as amended. When the request for the histories is answered, the
    function never exits: with a status other than 200 it logs a message
    and goes on to read the body; when the body is a JSON object it returns
    the value of the field ["beacon_histories"] if the object has it, and
    otherwise logs a message and raises [KeyError]. *)
Theorem get_beacon_histories_logs_and_goes_on X gi (w : world X) resp :
  make_get_request gi (base_url gi +:+ "/api/histories/beacon") = inr resp ->
  let r := get_beacon_histories X gi w in
  (∀ status, fst r ≠ Exit status)
  ∧ (status_code resp ≠ 200 ->
     ∃ rest, w_log X (snd r) = w_log X w ++ bla :: rest)
  ∧ (∀ members, content resp = Some (JObj members) ->
     match dict_get members "beacon_histories" with
     | Some v =>
         fst r = Val v
         ∧ w_log X (snd r)
           = w_log X w
             ++ (if bool_decide (status_code resp ≠ 200) then [bla] else [])
     | None =>
         fst r = Exc (KeyError "beacon_histories")
         ∧ w_log X (snd r)
           = w_log X w
             ++ (if bool_decide (status_code resp ≠ 200)
                 then [bla; bla] else [bla])
     end).
Proof.
  intros Hresp r. subst r. unfold get_beacon_histories.
  cbv [mbind M_bind mret M_ret lift raise logging]. rewrite Hresp.
  destruct resp as [status body]. simpl.
  split; [|split].
  - intros n. destruct (bool_decide (status ≠ 200)); simpl;
      (destruct body as [[| | | | | |members]|]; simpl; try done);
      repeat case_match; simpl; try done.
  - intros Hs. rewrite bool_decide_eq_true_2 by done. simpl.
    destruct body as [[| | | | | |members]|]; simpl; eauto;
      repeat case_match; simplify_eq/=; rewrite <- ?app_assoc; simpl; eauto.
  - intros members [= ->]. simpl.
    destruct (bool_decide (status ≠ 200)); simpl;
      destruct (dict_get members "beacon_histories"); simpl;
      rewrite ?app_nil_r, <- ?app_assoc; done.
Qed.

Lemma get_beacon_histories_logs_and_goes_on_witness :
  let r := get_beacon_histories mem gi_error w0 in
  (∀ status, fst r ≠ Exit status)
  ∧ (∃ rest, w_log mem (snd r) = w_log mem w0 ++ bla :: rest)
  ∧ fst r = Exc (KeyError "beacon_histories")
  ∧ w_log mem (snd r) = w_log mem w0 ++ [bla; bla].
Proof.
  destruct (get_beacon_histories_logs_and_goes_on mem gi_error w0
              {| status_code := 500;
                 content := Some (JObj [("err_msg",
                                         JStr "Internal Server Error")]) |}
              eq_refl) as (Hexit & Hlog & Hobj).
  split; [exact Hexit|]. split; [by apply Hlog|].
  exact (Hobj _ eq_refl).
Defined.

(** A status other than 200 with a body that is not JSON: after the message
    for the status [json.loads] raises, so the function neither returns the
    field nor raises [KeyError]. *)
Lemma get_beacon_histories_returns_or_key_error_counterexample :
  make_get_request gi_html (base_url gi_html +:+ "/api/histories/beacon")
  = inr {| status_code := 502; content := None |}
  ∧ get_beacon_histories mem gi_html w0
    = (Exc JSONDecodeError, add_log mem bla w0)
  ∧ (∀ v, fst (get_beacon_histories mem gi_html w0) ≠ Val v)
  ∧ fst (get_beacon_histories mem gi_html w0) ≠ Exc (KeyError "beacon_histories").
Proof.
  split; [reflexivity|]. split; [reflexivity|].
  split; [intros v|]; vm_compute; discriminate.
Qed.

(** ** The import into the database *)

(** A run is known by its result and the world it leaves. *)
Lemma run_returns {A W : Type} (p : A * W) (a : A) :
  fst p = a -> p = (a, snd p).
Proof. destruct p. simpl. by intros ->. Qed.

Lemma beacon_import_eq X (w : world X) (dataset_file metadata_file : string) :
  beacon_import X dataset_file metadata_file w
  = match w_fs X w !! dataset_file with
    | None => (Exc (OSError ("Error opening " +:+ dataset_file)), w)
    | Some text =>
        match parse_vcf X text with
        | None => (Exc (ForeignError "not a variant file"), w)
        | Some records =>
            let w0 := add_call X (LoadMetadata metadata_file dataset_file) w in
            match load_metadata X (w_db X w) (w_fs X w) records metadata_file
                    dataset_file with
            | inl e => (Exc e, w0)
            | inr (dataset_id, c1) =>
                let w1 :=
                  add_call X (LoadDatafile dataset_file dataset_id 0)
                    (add_call X (LoadMetadataDone dataset_id) (put_db X c1 w0))
                in
                match load_datafile X c1 (w_fs X w) records dataset_file
                        dataset_id 0 with
                | inl e => (Exc e, w1)
                | inr c2 => (Val tt, add_call X LoadDatafileDone (put_db X c2 w1))
                end
            end
        end
    end.
Proof.
  unfold beacon_import, VCF, db_load_metadata, db_load_datafile, ask_db,
    set_db.
  cbv [mbind M_bind mret M_ret record_call].
  destruct (w_fs X w !! dataset_file) as [text|]; [|done].
  destruct (parse_vcf X text) as [records|]; [|done]. simpl.
  destruct (load_metadata X _ _ _ _ _) as [e|[dataset_id c1]]; simpl;
    [done|].
  destruct (load_datafile X _ _ _ _ _ _) as [e|c2]; done.
Qed.

(** C6. Given a dataset file that parses, [beacon_import] first has the
    metadata loaded; the variant load is not called unless that load has
    returned; it is then called on the database the metadata load left,
    with the identifier the metadata load returned and the minimum allele
    count 0.  In a registry whose variant load follows the threshold of
    the specification, every record of the file is in the database when
    [beacon_import] has returned, whatever its allele count. *)
Theorem beacon_import_loads_metadata_first X (w : world X)
  (dataset_file metadata_file text : string) (records : list Variant) :
  w_fs X w !! dataset_file = Some text ->
  parse_vcf X text = Some records ->
  (∀ allele_count holds w',
     threshold_registry X allele_count holds ->
     beacon_import X dataset_file metadata_file w = (Val tt, w') ->
     ∀ v, v ∈ records -> holds (w_db X w') v)
  ∧ match load_metadata X (w_db X w) (w_fs X w) records metadata_file
            dataset_file with
    | inl e =>
        beacon_import X dataset_file metadata_file w
        = (Exc e, add_call X (LoadMetadata metadata_file dataset_file) w)
    | inr (dataset_id, c1) =>
        let w1 :=
          add_call X (LoadDatafile dataset_file dataset_id 0)
            (add_call X (LoadMetadataDone dataset_id)
               (put_db X c1
                  (add_call X (LoadMetadata metadata_file dataset_file) w))) in
        match load_datafile X c1 (w_fs X w) records dataset_file dataset_id 0
        with
        | inl e => beacon_import X dataset_file metadata_file w = (Exc e, w1)
        | inr c2 =>
            beacon_import X dataset_file metadata_file w
            = (Val tt, add_call X LoadDatafileDone (put_db X c2 w1))
        end
    end.
Proof.
  intros Hfile Hparse. split.
  - intros allele_count holds w' Hreg.
    rewrite beacon_import_eq, Hfile, Hparse. simpl.
    destruct (load_metadata X _ _ _ _ _) as [e|[dataset_id c1]]; [done|].
    destruct (load_datafile X _ _ _ _ _ _) as [e|c2] eqn:Hload; [done|].
    intros [= <-] v Hv. simpl.
    apply (Hreg _ _ _ _ _ _ _ Hload v Hv).
    unfold reaches_min_ac. apply Z.leb_le. lia.
  - rewrite beacon_import_eq, Hfile, Hparse. simpl.
    destruct (load_metadata X _ _ _ _ _) as [e|[dataset_id c1]]; [done|].
    destruct (load_datafile X _ _ _ _ _ _) as [e|c2]; done.
Qed.

(** The registry of the scenario follows the threshold. *)
Lemma mem_insert_rows (dataset_id : string) (v : Variant) (c : memdb) :
  ∃ extra,
    rows (mem_insert dataset_id v c) = rows c ++ extra
    ∧ ∀ alt, alt ∈ ALT v ->
        ∃ r, r ∈ extra ∧ r_start r = start v ∧ r_ref r = REF v
             ∧ r_alt r = alt.
Proof.
  unfold mem_insert. generalize (ALT v) as alts. intros alts. revert c.
  induction alts as [|a alts IH]; intros c.
  - exists []. split; [by rewrite app_nil_r|]. by intros alt ?%elem_of_nil.
  - cbn [fold_left].
    match goal with
    | |- context [fold_left _ alts ?c'] =>
        destruct (IH c') as (extra & -> & Hextra)
    end.
    cbn [rows]. eexists (_ :: extra). rewrite <- app_assoc.
    split; [reflexivity|].
    intros alt [->|Hin]%elem_of_cons.
    + eexists. split; [apply list_elem_of_here|done].
    + destruct (Hextra alt Hin) as (r & Hr & H).
      exists r. split; [by apply list_elem_of_further|done].
Qed.

Lemma mem_load_rows (dataset_id : string) (vs : list Variant) (c : memdb) :
  ∃ extra,
    rows (fold_left (fun c v => mem_insert dataset_id v c) vs c)
    = rows c ++ extra
    ∧ ∀ v alt, v ∈ vs -> alt ∈ ALT v ->
        ∃ r, r ∈ extra ∧ r_start r = start v ∧ r_ref r = REF v
             ∧ r_alt r = alt.
Proof.
  revert c. induction vs as [|v vs IH]; intros c.
  - exists []. split; [by rewrite app_nil_r|]. by intros v alt ?%elem_of_nil.
  - cbn [fold_left]. destruct (IH (mem_insert dataset_id v c))
      as (extra & -> & Hextra).
    destruct (mem_insert_rows dataset_id v c) as (first & -> & Hfirst).
    exists (first ++ extra). rewrite <- app_assoc. split; [done|].
    intros v' alt [->|Hin]%elem_of_cons Halt.
    + destruct (Hfirst alt Halt) as (r & Hr & H).
      exists r. split; [apply elem_of_app; by left|done].
    + destruct (Hextra v' alt Hin Halt) as (r & Hr & H).
      exists r. split; [apply elem_of_app; by right|done].
Qed.

Lemma mem_threshold_registry :
  threshold_registry mem mem_allele_count mem_holds.
Proof.
  intros c fs records dataset_file dataset_id min_ac c' [= <-] v Hv Hac alt
    Halt.
  destruct (mem_load_rows dataset_id
              (List.filter
                 (fun v => reaches_min_ac min_ac (mem_allele_count v)) records)
              c) as (extra & -> & Hextra).
  destruct (Hextra v alt) as (r & Hr & H); [|done|].
  - apply list_elem_of_In, filter_In. split; [by apply list_elem_of_In|done].
  - exists r. split; [apply elem_of_app; by right|done].
Qed.

(** With the default minimum of 1 the record of the scenario is left out;
    [beacon_import] passes 0 and has it loaded. *)
Lemma beacon_import_loads_metadata_first_witness :
  load_datafile mem db0 ∅ vcf_records Scenario.dataset_file "galaxy-grch38" 1
  = inr db0
  ∧ (∀ v, v ∈ vcf_records ->
       mem_holds
         (w_db mem
            (snd (beacon_import mem Scenario.dataset_file
                    Scenario.metadata_file w_ready))) v)
  ∧ beacon_import mem Scenario.dataset_file Scenario.metadata_file w_ready
    = (Val tt,
       add_call mem LoadDatafileDone
         (put_db mem {| rows := rows db0
                              ++ [{| r_index := 17;
                                     r_dataset := "galaxy-grch38";
                                     r_start := 100; r_ref := "A";
                                     r_alt := "T" |}];
                      next_index := 18 |}
            (add_call mem
               (LoadDatafile Scenario.dataset_file "galaxy-grch38" 0)
               (add_call mem (LoadMetadataDone "galaxy-grch38")
                  (put_db mem db0
                     (add_call mem
                        (LoadMetadata Scenario.metadata_file
                           Scenario.dataset_file) w_ready)))))).
Proof.
  split; [reflexivity|].
  destruct (beacon_import_loads_metadata_first mem w_ready
              Scenario.dataset_file Scenario.metadata_file vcf_text
              vcf_records eq_refl eq_refl) as [Hall Hrun].
  split; [|exact Hrun].
  apply (Hall mem_allele_count mem_holds _ mem_threshold_registry).
  apply run_returns. vm_compute. reflexivity.
Defined.

(** ** The origin file and the files of a cycle *)

Section Cycle.

Context (X : externals).

Lemma grow_nothing (w : world X) : grow X [] EmptyString w = w.
Proof.
  destruct w. unfold grow. simpl. by rewrite app_nil_r, append_empty_r.
Qed.

Lemma grow_grow cs1 t1 cs2 t2 (w : world X) :
  grow X cs2 t2 (grow X cs1 t1 w) = grow X (cs1 ++ cs2) (t1 +:+ t2) w.
Proof. unfold grow. simpl. by rewrite app_assoc, append_assoc. Qed.

Lemma concat_lines_app (a b : list string) :
  concat_lines (a ++ b) = concat_lines a +:+ concat_lines b.
Proof.
  induction a as [|x a IH]; [done|].
  cbn [app concat_lines]. by rewrite IH, append_assoc.
Qed.

Lemma for_each_cons_val {A S : Type} (x : A) (l : list A)
  (body : A -> S -> M X S) (s s' : S) (w w' : world X) :
  body x s w = (Val s', w') ->
  for_each X (x :: l) body s w = for_each X l body s' w'.
Proof. intros H. cbn [for_each]. unfold mbind, M_bind. by rewrite H. Qed.

Lemma add_origins_grow (text : string) (w : world X) :
  add_origins X text w = grow X [] text w.
Proof. unfold add_origins, grow. by rewrite app_nil_r. Qed.

Lemma add_call_grow (c : call) (w : world X) :
  add_call X c w = grow X [c] EmptyString w.
Proof. unfold add_call, grow. by rewrite append_empty_r. Qed.

(** The innermost loop: one line per index. *)
Lemma write_lines (dataset_id : string) (indices : list Z) (w : world X) :
  for_each X indices
    (fun index _ =>
       record_write X (str_of_int index +:+ " " +:+ dataset_id +:+ newline))
    tt w
  = (Val tt,
     grow X [] (concat_lines (map (fun i => origin_line i dataset_id) indices))
       w).
Proof.
  revert w. induction indices as [|i indices IH]; intros w.
  - simpl. by rewrite grow_nothing.
  - cbn [for_each]. cbv [mbind M_bind record_write].
    rewrite IH, add_origins_grow, grow_grow. done.
Qed.

(** The loop over the alternate alleles of a record. *)
Lemma write_alleles (dataset_id : string) (v : Variant) (alts : list string)
  (w : world X) :
  for_each X alts
    (fun alt _ =>
       indices ← get_variant_indices X (start v) (REF v) alt;
       for_each X indices
         (fun index _ =>
            record_write X
              (str_of_int index +:+ " " +:+ dataset_id +:+ newline)) tt)
    tt w
  = (Val tt,
     grow X
       (map (fun alt => Fetch (select_indices (start v) (REF v) alt)) alts)
       (concat_lines
          (flat_map (fun alt =>
             map (fun i => origin_line i dataset_id)
                 (indices_in X (w_db X w) (start v) (REF v) alt)) alts))
       w).
Proof.
  revert w. induction alts as [|alt alts IH]; intros w.
  - simpl. by rewrite grow_nothing.
  - cbn [for_each]. unfold get_variant_indices, ask_db.
    cbv [mbind M_bind mret M_ret record_call].
    rewrite write_lines, IH, add_call_grow, !grow_grow.
    cbn [flat_map map]. rewrite concat_lines_app. done.
Qed.

Lemma persist_variant_origins_eq (dataset_id : string)
  (records : list Variant) (w : world X) :
  persist_variant_origins X dataset_id records w
  = (Val tt,
     grow X (fetch_calls records)
       (concat_lines
          (origin_lines (indices_in X (w_db X w)) dataset_id records))
       w).
Proof.
  unfold persist_variant_origins. revert w.
  induction records as [|v records IH]; intros w.
  - simpl. by rewrite grow_nothing.
  - erewrite for_each_cons_val by apply write_alleles.
    rewrite IH, grow_grow.
    unfold origin_lines, fetch_calls. cbn [flat_map].
    rewrite concat_lines_app. done.
Qed.

Lemma download_dataset_returns gi d filename (w : world X) :
  ∃ w1, download_dataset X gi d filename w = (Val tt, w1)
        ∧ w_db X w1 = w_db X w ∧ w_clock X w1 = w_clock X w
        ∧ w_origins X w1 = w_origins X w.
Proof.
  unfold download_dataset, leave_file, logging.
  cbv [mbind M_bind record_call].
  destruct (download gi (GalaxyDataset.id d)) as [[e [text|]]|bytes];
    eexists; split; done.
Qed.

(** What a cycle that returns has done. *)
Lemma import_dataset_returns args gi d (w w' : world X) :
  import_dataset X args gi d w = (Val tt, w') ->
  ∃ text records dataset_id c1,
    w_fs X w' !! dataset_path d = Some text
    ∧ parse_vcf X text = Some records
    ∧ w_fs X w' !! metadata_path d
      = Some (BeaconMetadata.__json__ (metadata_in X d w))
    ∧ load_metadata X (w_db X w) (w_fs X w') records (metadata_path d)
        (dataset_path d) = inr (dataset_id, c1)
    ∧ load_datafile X c1 (w_fs X w') records (dataset_path d) dataset_id 0
      = inr (w_db X w')
    ∧ w_origins X w'
      = if skip_origins args then w_origins X w
        else w_origins X w
             +:+ concat_lines
                   (origin_lines (indices_in X (w_db X w'))
                      (GalaxyDataset.id d) records).
Proof.
  unfold import_dataset.
  unfold mbind at 1, M_bind at 1. unfold logging at 1.
  unfold mbind at 1, M_bind at 1.
  destruct (download_dataset_returns gi d (dataset_path d)
              (add_log X {| lvl := INFO;
                            msg := "next file is " +:+ GalaxyDataset.name d |} w))
    as (w1 & -> & Hdb1 & Hclock1 & Horigins1).
  unfold mbind at 1, M_bind at 1. rewrite prepare_metadata_file_writes.
  destruct (open_w X (metadata_path d)); [done|].
  unfold mbind at 1, M_bind at 1. rewrite beacon_import_eq.
  assert (metadata_in X d w1 = metadata_in X d w) as ->.
  { unfold metadata_in. by rewrite Hclock1. }
  cbn [w_fs w_db w_origins put_fs tick add_call add_log put_db] in *.
  rewrite Hdb1.
  set (fs2 := <[metadata_path d := _]> (w_fs X w1)).
  assert (fs2 !! metadata_path d
          = Some (BeaconMetadata.__json__ (metadata_in X d w))) as Hmeta_file
    by apply lookup_insert_eq.
  destruct (fs2 !! dataset_path d) as [text|] eqn:Hfile; [|done].
  destruct (parse_vcf X text) as [records|] eqn:Hparse; [|done].
  cbv zeta.
  destruct (load_metadata X _ _ _ _ _) as [e|[dataset_id c1]] eqn:Hmeta;
    [done|].
  destruct (load_datafile X _ _ _ _ _ _) as [e|c2] eqn:Hdata; [done|].
  destruct (skip_origins args); cbn [negb].
  - intros [= <-]. exists text, records, dataset_id, c1. done.
  - unfold mbind, M_bind, VCF.
    cbn [w_fs w_db w_origins put_fs tick add_call add_log put_db].
    rewrite Hfile, Hparse, persist_variant_origins_eq.
    intros [= <-]. exists text, records, dataset_id, c1.
    cbn [w_fs w_db w_origins put_fs tick add_call add_log put_db grow].
    by rewrite Horigins1.
Qed.

End Cycle.



(** C2, as amended. The tracker appends, for every record of the file it is given,
    every alternate allele of the record and every index the database
    returns for the start, the reference and the allele, one line made of
    the index, a space and the identifier it was called with, in that
    order; and a cycle of [main] that tracks origins and returns has called
    it with the id the dataset has in Galaxy, on the records of the file
    opened again after the load. *)
Theorem origin_lines_carry_the_galaxy_id X args gi d (w w' : world X) :
  skip_origins args = false ->
  import_dataset X args gi d w = (Val tt, w') ->
  (∀ dataset_id records w0,
     persist_variant_origins X dataset_id records w0
     = (Val tt,
        grow X (fetch_calls records)
          (concat_lines
             (origin_lines (indices_in X (w_db X w0)) dataset_id records))
          w0))
  ∧ ∃ text records,
      w_fs X w' !! dataset_path d = Some text
      ∧ parse_vcf X text = Some records
      ∧ w_origins X w'
        = w_origins X w
          +:+ concat_lines
                (origin_lines (indices_in X (w_db X w'))
                   (GalaxyDataset.id d) records).
Proof.
  intros Hskip Hrun. split; [apply persist_variant_origins_eq|].
  destruct (import_dataset_returns X args gi d w w' Hrun)
    as (text & records & dataset_id & c1 & Hfile & Hparse & _ & _ & _ & Ho).
  rewrite Hskip in Ho. eauto.
Qed.

Lemma origin_lines_carry_the_galaxy_id_witness :
  ∃ text records,
    w_fs mem (snd (import_dataset mem with_origins gi_one the_dataset w0))
    !! dataset_path the_dataset = Some text
    ∧ parse_vcf mem text = Some records
    ∧ w_origins mem (snd (import_dataset mem with_origins gi_one the_dataset w0))
      = w_origins mem w0
        +:+ concat_lines
              (origin_lines
                 (indices_in mem
                    (w_db mem (snd (import_dataset mem with_origins gi_one
                                    the_dataset w0))))
                 "f2db41e1fa331b3e" records).
Proof.
  apply (origin_lines_carry_the_galaxy_id mem with_origins gi_one the_dataset
           w0 (snd (import_dataset mem with_origins gi_one the_dataset w0))).
  - reflexivity.
  - apply run_returns. vm_compute. reflexivity.
Defined.

(** The cycle of the specification's example: the database assigns the
    identifier galaxy-grch38 and returns the rows 4 and 17 for the variant,
    and the two lines written carry the Galaxy id of the dataset. *)
Lemma origin_lines_carry_the_registry_id_counterexample :
  fst (import_dataset mem with_origins gi_one the_dataset w0) = Val tt
  ∧ LoadMetadataDone "galaxy-grch38"
    ∈ w_calls mem (snd (import_dataset mem with_origins gi_one the_dataset w0))
  ∧ indices_in mem
      (w_db mem (snd (import_dataset mem with_origins gi_one the_dataset w0)))
      100 "A" "T" = [4; 17]
  ∧ w_origins mem (snd (import_dataset mem with_origins gi_one the_dataset w0))
    = "4 f2db41e1fa331b3e" +:+ newline +:+ "17 f2db41e1fa331b3e" +:+ newline
  ∧ w_origins mem (snd (import_dataset mem with_origins gi_one the_dataset w0))
    ≠ "4 galaxy-grch38" +:+ newline +:+ "17 galaxy-grch38" +:+ newline.
Proof.
  split; [by vm_compute|]. split; [|split; [by vm_compute|]].
  - vm_compute. set_solver.
  - split; [by vm_compute|]. vm_compute. discriminate.
Qed.

(** C7. A cycle of [main] that returns leaves the transferred dataset file
    and the metadata file in place: the world handed to the next cycle
    holds both, [cleanup] not being called. *)
Theorem import_cycle_leaves_both_files X args gi d (w w' : world X) :
  import_dataset X args gi d w = (Val tt, w') ->
  is_Some (w_fs X w' !! dataset_path d)
  ∧ w_fs X w' !! metadata_path d
    = Some (BeaconMetadata.__json__ (metadata_in X d w)).
Proof.
  intros Hrun.
  destruct (import_dataset_returns X args gi d w w' Hrun)
    as (text & records & dataset_id & c1 & Hfile & _ & Hmeta & _).
  eauto.
Qed.

Lemma import_cycle_leaves_both_files_witness :
  is_Some (w_fs mem (snd (import_dataset mem with_origins gi_one the_dataset w0))
           !! "/tmp/dataset-uuid-f2db41e1fa331b3e")
  ∧ w_fs mem (snd (import_dataset mem with_origins gi_one the_dataset w0))
    !! "/tmp/metadata-uuid-f2db41e1fa331b3e"
    = Some (BeaconMetadata.__json__ (metadata_in mem the_dataset w0)).
Proof.
  apply (import_cycle_leaves_both_files mem with_origins gi_one the_dataset
           w0 (snd (import_dataset mem with_origins gi_one the_dataset w0))).
  apply run_returns. vm_compute. reflexivity.
Defined.

(** A whole run over a history with two datasets: at the end the four
    files are there. *)
Example run_leaves_four_files :
  fst (import_histories mem 5 with_origins gi_two w0) = Val tt
  ∧ Forall (fun path =>
              is_Some (w_fs mem (snd (import_histories mem 5 with_origins gi_two w0))
                       !! path))
      [ "/tmp/dataset-uuid-f2db41e1fa331b3e";
        "/tmp/metadata-uuid-f2db41e1fa331b3e";
        "/tmp/dataset-uuid-bbd44e69cb8906b5";
        "/tmp/metadata-uuid-bbd44e69cb8906b5" ].
Proof.
  split; [vm_compute; reflexivity|].
  repeat constructor; vm_compute; eauto.
Qed.

(** * Further properties *)

Import MoreRuns.

(** ** The constructor of [GalaxyDataset] *)

Lemma init_fields (info : gmap string string) (d : GalaxyDataset.t) :
  GalaxyDataset.init info = inr d ->
  info !! "name" = Some (GalaxyDataset.name d)
  ∧ info !! "id" = Some (GalaxyDataset.id d)
  ∧ info !! "uuid" = Some (GalaxyDataset.uuid d)
  ∧ info !! "extension" = Some (GalaxyDataset.extension d)
  ∧ info !! "metadata_dbkey" = Some (GalaxyDataset.reference_name d).
Proof.
  unfold GalaxyDataset.init, GalaxyDataset.required_keys, getitem.
  cbv [mbind mret result_bind result_ret]. simpl.
  destruct (info !! "name"); [|done].
  destruct (info !! "id"); [|done].
  destruct (info !! "uuid"); [|done].
  destruct (info !! "extension"); [|done].
  destruct (info !! "metadata_dbkey"); [|done].
  by intros [= <-].
Qed.

Lemma init_agree (info info' : gmap string string) :
  (∀ key, key ∈ GalaxyDataset.required_keys -> info !! key = info' !! key) ->
  GalaxyDataset.init info = GalaxyDataset.init info'.
Proof.
  intros H. unfold GalaxyDataset.init, GalaxyDataset.required_keys, getitem.
  cbv [mbind mret result_bind result_ret]. simpl.
  rewrite <- !H by (unfold GalaxyDataset.required_keys; set_solver). done.
Qed.

(** X1. The constructor of [GalaxyDataset] succeeds exactly on the
    descriptions that have the five keys name, id, uuid, extension and
    metadata_dbkey; the dataset it builds holds the values of these keys;
    and no other key of the description has any influence. *)
Theorem init_reads_the_five_keys (info : gmap string string) :
  (complete info <-> ∃ d, GalaxyDataset.init info = inr d)
  ∧ (∀ d, GalaxyDataset.init info = inr d ->
       info !! "name" = Some (GalaxyDataset.name d)
       ∧ info !! "id" = Some (GalaxyDataset.id d)
       ∧ info !! "uuid" = Some (GalaxyDataset.uuid d)
       ∧ info !! "extension" = Some (GalaxyDataset.extension d)
       ∧ info !! "metadata_dbkey" = Some (GalaxyDataset.reference_name d))
  ∧ (∀ info' : gmap string string,
       (∀ key, key ∈ GalaxyDataset.required_keys ->
               info !! key = info' !! key) ->
       GalaxyDataset.init info = GalaxyDataset.init info').
Proof.
  split; [|split].
  - split; [apply init_complete|].
    intros [d Hd]. apply init_fields in Hd as (H1 & H2 & H3 & H4 & H5).
    refine (required_key_cases (fun key => is_Some (info !! key)) _ _ _ _ _);
      eauto.
  - apply init_fields.
  - apply init_agree.
Qed.

Lemma check_keys_first_missing (info : gmap string string)
  (before after : list string) (key : string) :
  (∀ k, k ∈ before -> is_Some (info !! k)) ->
  info !! key = None ->
  GalaxyDataset.check_keys (before ++ key :: after) info
  = inl (MissingFieldException
           ("key " +:+ dq +:+ key +:+ dq +:+ " not defined")).
Proof.
  intros Hb Hk. induction before as [|k before IH]; simpl.
  - by rewrite Hk.
  - destruct (Hb k ltac:(set_solver)) as [v ->]. apply IH.
    intros k' Hk'. apply Hb. set_solver.
Qed.

(** X2. When a key is missing, the exception of the constructor
    names the first missing one in the order name, id, uuid, extension,
    metadata_dbkey, whatever is missing after it. *)
Theorem init_names_the_first_missing_key (info : gmap string string)
  (before after : list string) (key : string) :
  GalaxyDataset.required_keys = before ++ key :: after ->
  (∀ k, k ∈ before -> is_Some (info !! k)) ->
  info !! key = None ->
  GalaxyDataset.init info
  = inl (MissingFieldException
           ("key " +:+ dq +:+ key +:+ dq +:+ " not defined")).
Proof.
  intros Hkeys Hb Hk. unfold GalaxyDataset.init. rewrite Hkeys.
  cbv [mbind result_bind].
  by rewrite (check_keys_first_missing info before after key Hb Hk).
Qed.

Lemma init_names_the_first_missing_key_witness :
  GalaxyDataset.init (delete "extension" no_uuid)
  = inl (MissingFieldException
           ("key " +:+ dq +:+ "uuid" +:+ dq +:+ " not defined")).
Proof.
  apply (init_names_the_first_missing_key (delete "extension" no_uuid)
           ["name"; "id"] ["extension"; "metadata_dbkey"] "uuid").
  - reflexivity.
  - intros k Hk.
    repeat (apply elem_of_cons in Hk as [-> | Hk]; [vm_compute; eauto|]).
    by apply elem_of_nil in Hk.
  - vm_compute. reflexivity.
Defined.

(** ** The filter *)

Lemma match_reference_shape (s g : string) :
  match_reference s = Some g ->
  ∃ family ds rest,
    (family = "GRCh" ∨ family = "hg") ∧ ds ≠ EmptyString
    ∧ all_digits ds = true ∧ starts_with_digit rest = false
    ∧ s = family +:+ ds +:+ rest ∧ g = family +:+ ds.
Proof.
  unfold match_reference.
  destruct (family_digits "GRCh" s) as [g1|] eqn:E1.
  - intros [= <-].
    apply family_digits_form in E1 as (ds & rest & Hne & Hd & Hr & -> & ->).
    exists "GRCh", ds, rest. auto 10.
  - intros H.
    apply family_digits_form in H as (ds & rest & Hne & Hd & Hr & -> & ->).
    exists "hg", ds, rest. auto 10.
Qed.

(** X3. Whatever the filter returns is a family prefix, GRCh or
    hg, followed by all the digits that follow it in the label and nothing
    else; it is a prefix of the label, and the filter maps it to itself. *)
Theorem match_reference_is_a_normal_prefix (s g : string) :
  match_reference s = Some g ->
  ∃ family ds rest,
    (family = "GRCh" ∨ family = "hg") ∧ ds ≠ EmptyString
    ∧ all_digits ds = true ∧ starts_with_digit rest = false
    ∧ s = family +:+ ds +:+ rest ∧ g = family +:+ ds
    ∧ match_reference g = Some g.
Proof.
  intros H. pose proof (match_reference_idem s g H) as Hidem.
  destruct (match_reference_shape s g H)
    as (family & ds & rest & Hf & Hne & Hd & Hr & Hs & Hg).
  exists family, ds, rest. auto 10.
Qed.

Lemma match_reference_is_a_normal_prefix_witness :
  ∃ family ds rest,
    (family = "GRCh" ∨ family = "hg") ∧ ds ≠ EmptyString
    ∧ all_digits ds = true ∧ starts_with_digit rest = false
    ∧ "hg38_analysis_set" = family +:+ ds +:+ rest ∧ "hg38" = family +:+ ds
    ∧ match_reference "hg38" = Some "hg38".
Proof.
  apply (match_reference_is_a_normal_prefix "hg38_analysis_set" "hg38").
  reflexivity.
Defined.

(** ** More on the enumeration *)

Section MoreEnumeration.

Context (X : externals).

Lemma bind_val {A B : Type} (m : M X A) (f : A -> M X B) (w w1 : world X) (a : A) :
  m w = (Val a, w1) -> (m ≫= f) w = f a w1.
Proof. intros H. unfold mbind, M_bind. by rewrite H. Qed.

Lemma bind_inv {A B : Type} (m : M X A) (f : A -> M X B) (w w' : world X) (b : B) :
  (m ≫= f) w = (Val b, w') ->
  ∃ a w1, m w = (Val a, w1) ∧ f a w1 = (Val b, w').
Proof.
  unfold mbind, M_bind. destruct (m w) as [[a| | |] w1]; try done. eauto.
Qed.

(** The loop body keeps the datasets collected so far and appends only
    normalized ones. *)
Lemma entry_body_normalized gi e l l' (w w' : world X) :
  entry_body X gi e l w = (Val l', w') ->
  Forall normalized (datasets l) -> Forall normalized (datasets l').
Proof.
  intros Hrun Hl.
  destruct (init_cases (show_dataset gi (entry_id e)))
    as [(d & Hd & _) | (key & _ & _ & Hm)].
  - rewrite (entry_body_constructed X gi e l w d Hd) in Hrun.
    destruct (match_reference (GalaxyDataset.reference_name d)) as [g|] eqn:E;
      injection Hrun as <- <-; simpl; [|done].
    apply Forall_app. split; [done|]. constructor; [|done].
    unfold normalized. simpl. by eapply match_reference_idem.
  - rewrite (entry_body_missing X gi e l w _ Hm) in Hrun. simpl in Hrun.
    destruct (dataset l) as [d|]; [|done].
    destruct (match_reference (GalaxyDataset.reference_name d)) as [g|] eqn:E;
      injection Hrun as <- <-; simpl; [|done].
    apply Forall_app. split; [done|]. constructor; [|done].
    unfold normalized. simpl. by eapply match_reference_idem.
Qed.

Lemma for_each_entries_normalized gi es : ∀ l l' (w w' : world X),
  for_each X es (entry_body X gi) l w = (Val l', w') ->
  Forall normalized (datasets l) -> Forall normalized (datasets l').
Proof.
  induction es as [|e es IH]; intros l l' w w' Hrun Hl.
  - by injection Hrun as <- <-.
  - cbn [for_each] in Hrun.
    apply bind_inv in Hrun as (l1 & w1 & H1 & H2).
    eapply IH; [exact H2|]. by eapply entry_body_normalized.
Qed.

Lemma get_datasets_from_normalized gi hid fuel : ∀ o l ds (w w' : world X),
  get_datasets_from X fuel gi hid o l w = (Val ds, w') ->
  Forall normalized (datasets l) -> Forall normalized ds.
Proof.
  induction fuel as [|fuel IH]; intros o l ds w w' Hrun Hl; [done|].
  cbn [get_datasets_from] in Hrun.
  apply bind_inv in Hrun as ([] & w1 & _ & Hrun).
  apply bind_inv in Hrun as (l1 & w2 & H1 & Hrun).
  apply for_each_entries_normalized in H1; [|done].
  case_bool_decide.
  - by injection Hrun as <- <-.
  - by eapply IH.
Qed.

(** X4. Every dataset in a list [get_datasets] returns has a
    normalized reference name: a family prefix followed by digits only,
    which the filter maps to itself. *)
Theorem get_datasets_returns_normalized gi hid fuel ds (w w' : world X) :
  get_datasets X fuel gi hid w = (Val ds, w') ->
  ∀ d, d ∈ ds ->
    ∃ family digits,
      (family = "GRCh" ∨ family = "hg") ∧ digits ≠ EmptyString
      ∧ all_digits digits = true
      ∧ GalaxyDataset.reference_name d = family +:+ digits
      ∧ match_reference (GalaxyDataset.reference_name d)
        = Some (GalaxyDataset.reference_name d).
Proof.
  intros Hrun d Hd. unfold get_datasets in Hrun.
  apply get_datasets_from_normalized in Hrun; [|by constructor].
  rewrite Forall_forall in Hrun. specialize (Hrun d Hd).
  destruct (match_reference_shape _ _ Hrun)
    as (family & ds' & rest & Hf & Hne & Hdig & _ & _ & Heq).
  exists family, ds'. done.
Qed.

(** An entry with a complete description: what the body does does not
    depend on what [dataset] holds. *)
Lemma entry_body_complete gi e l (w : world X) :
  complete (show_dataset gi (entry_id e)) ->
  ∃ l' w',
    entry_body X gi e l w = (Val l', w')
    ∧ datasets l' = datasets l ++ option_list (dataset_of_entry gi e)
    ∧ is_Some (dataset l')
    ∧ w_log X w' = w_log X w ++ warning_of_entry gi e
    ∧ w_calls X w' = w_calls X w ++ [ShowDataset (entry_id e)]
    ∧ w_fs X w' = w_fs X w ∧ w_db X w' = w_db X w
    ∧ w_origins X w' = w_origins X w ∧ w_clock X w' = w_clock X w.
Proof.
  intros [d Hd]%init_complete.
  rewrite (entry_body_constructed X gi e l w d Hd).
  unfold dataset_of_entry, warning_of_entry. rewrite Hd.
  destruct (match_reference (GalaxyDataset.reference_name d)) as [g|];
    eexists _, _; (split; [reflexivity|]); simpl;
    rewrite ?app_nil_r; eauto 10.
Qed.

Lemma for_each_entries_complete gi es : ∀ l (w : world X),
  Forall (fun e => complete (show_dataset gi (entry_id e))) es ->
  ∃ l' w',
    for_each X es (entry_body X gi) l w = (Val l', w')
    ∧ datasets l' = datasets l ++ omap (dataset_of_entry gi) es
    ∧ (es ≠ [] -> is_Some (dataset l'))
    ∧ w_log X w' = w_log X w ++ flat_map (warning_of_entry gi) es
    ∧ w_calls X w'
      = w_calls X w ++ map (fun e => ShowDataset (entry_id e)) es
    ∧ w_fs X w' = w_fs X w ∧ w_db X w' = w_db X w
    ∧ w_origins X w' = w_origins X w ∧ w_clock X w' = w_clock X w.
Proof.
  induction es as [|e es IH]; intros l w Hes.
  - exists l, w. simpl. rewrite !app_nil_r. done.
  - apply Forall_cons in Hes as [He Hes].
    destruct (entry_body_complete gi e l w He)
      as (l1 & w1 & E1 & D1 & B1 & L1 & C1 & F1 & DB1 & O1 & K1).
    destruct (IH l1 w1 Hes)
      as (l2 & w2 & E2 & D2 & _ & L2 & C2 & F2 & DB2 & O2 & K2).
    exists l2, w2. split.
    { cbn [for_each]. by rewrite (bind_val _ _ _ _ _ E1). }
    split.
    { rewrite D2, D1, <- app_assoc. f_equal. cbn [omap list_omap].
      destruct (dataset_of_entry gi e); done. }
    split.
    { intros _. destruct es as [|e' es'].
      - by injection E2 as <- <-.
      - destruct (IH l1 w1 Hes) as (l3 & w3 & E3 & _ & B3 & _).
        rewrite E2 in E3. injection E3 as <- <-. by apply B3. }
    rewrite L2, L1, C2, C1, F2, F1, DB2, DB1, O2, O1, K2, K1.
    rewrite <- !app_assoc. done.
Qed.
Lemma get_datasets_from_complete gi hid k : ∀ fuel o l (w : world X),
  (∀ i, (i < k)%nat -> get_datasets_page gi hid limit (o + offset_of i) ≠ []) ->
  get_datasets_page gi hid limit (o + offset_of k) = [] ->
  (∀ i, (i < k)%nat ->
        Forall (fun e => complete (show_dataset gi (entry_id e)))
          (get_datasets_page gi hid limit (o + offset_of i))) ->
  (k < fuel)%nat ->
  let es := flat_map (fun i => get_datasets_page gi hid limit (o + offset_of i))
              (seq 0 k) in
  ∃ w',
    get_datasets_from X fuel gi hid o l w
    = (Val (datasets l ++ omap (dataset_of_entry gi) es), w')
    ∧ w_log X w' = w_log X w ++ flat_map (warning_of_entry gi) es
    ∧ w_fs X w' = w_fs X w ∧ w_db X w' = w_db X w
    ∧ w_origins X w' = w_origins X w ∧ w_clock X w' = w_clock X w.
Proof.
  induction k as [|k IH]; intros fuel o l w Hfull Hempty Hcomplete Hfuel es;
    (destruct fuel as [|fuel]; [lia|]).
  - replace (o + offset_of 0) with o in * by (unfold offset_of; lia).
    subst es. cbn [get_datasets_from seq flat_map omap list_omap].
    cbv [mbind M_bind record_call]. rewrite Hempty. simpl.
    eexists. rewrite !app_nil_r. done.
  - pose proof (Hfull 0%nat ltac:(lia)) as Hne.
    pose proof (Hcomplete 0%nat ltac:(lia)) as Hc0.
    replace (o + offset_of 0) with o in Hne, Hc0 by (unfold offset_of; lia).
    destruct (for_each_entries_complete gi
                (get_datasets_page gi hid limit o) l
                (add_call X (GetDatasets hid limit o) w) Hc0)
      as (l1 & w1 & E1 & D1 & _ & L1 & _ & F1 & DB1 & O1 & K1).
    destruct (IH fuel (o + limit) l1 w1) as (w2 & E2 & L2 & F2 & DB2 & O2 & K2).
    + intros i Hi. rewrite <- offset_of_S. apply Hfull. lia.
    + by rewrite <- offset_of_S.
    + intros i Hi. rewrite <- offset_of_S. apply Hcomplete. lia.
    + lia.
    + assert (es = get_datasets_page gi hid limit o
                   ++ flat_map (fun i => get_datasets_page gi hid limit
                                           (o + limit + offset_of i))
                        (seq 0 k)) as ->.
      { subst es.
        rewrite (flat_map_seq_S
                   (fun i => get_datasets_page gi hid limit (o + offset_of i))).
        replace (o + offset_of 0) with o by (unfold offset_of; lia).
        f_equal. apply flat_map_ext. intros i. by rewrite offset_of_S. }
      exists w2. split.
      * cbn [get_datasets_from]. cbv [mbind M_bind record_call].
        rewrite E1. rewrite bool_decide_eq_false_2.
        -- rewrite E2, D1, omap_app, app_assoc. done.
        -- destruct (get_datasets_page gi hid limit o); simpl; [done|lia].
      * rewrite L2, L1, F2, F1, DB2, DB1, O2, O1, K2, K1.
        rewrite flat_map_app, app_assoc. done.
Qed.

(** X5. When every entry of the pages before the first empty one
    has a complete description, [get_datasets] returns, in the order of the
    pages, the datasets of the entries whose reference the filter matches,
    each with its reference name normalized, logs one warning for each of
    the other entries, and changes no file, nothing in the database, and
    neither the origin file nor the clock. *)
Theorem get_datasets_collects_the_matching_entries gi hid (k fuel : nat)
  (w : world X) :
  (∀ i, (i < k)%nat -> get_datasets_page gi hid limit (offset_of i) ≠ []) ->
  get_datasets_page gi hid limit (offset_of k) = [] ->
  Forall (fun e => complete (show_dataset gi (entry_id e)))
    (entries_before gi hid k) ->
  (k < fuel)%nat ->
  ∃ w',
    get_datasets X fuel gi hid w
    = (Val (omap (dataset_of_entry gi) (entries_before gi hid k)), w')
    ∧ w_log X w'
      = w_log X w ++ flat_map (warning_of_entry gi) (entries_before gi hid k)
    ∧ w_fs X w' = w_fs X w ∧ w_db X w' = w_db X w
    ∧ w_origins X w' = w_origins X w ∧ w_clock X w' = w_clock X w.
Proof.
  intros Hfull Hempty Hcomplete Hfuel. unfold get_datasets.
  destruct (get_datasets_from_complete gi hid k fuel 0
              {| datasets := []; dataset := None |} w)
    as (w' & E & L & Hrest); try done.
  - intros i Hi. rewrite Forall_forall in Hcomplete |- *.
    intros e He. apply Hcomplete. unfold entries_before.
    apply list_elem_of_In, in_flat_map. exists i. split.
    + apply in_seq. lia.
    + by apply list_elem_of_In.
  - exists w'. done.
Qed.

Lemma offset_of_next (i : nat) : offset_of i + limit = offset_of (S i).
Proof. unfold offset_of, limit. lia. Qed.

Lemma get_datasets_from_diverges gi hid fuel : ∀ (i : nat) l (w : world X),
  (∀ j : nat, get_datasets_page gi hid limit (offset_of j) ≠ []) ->
  is_Some (dataset l) ->
  fst (get_datasets_from X fuel gi hid (offset_of i) l w) = Div.
Proof.
  induction fuel as [|fuel IH]; intros i l w Hpages Hl; [done|].
  destruct (for_each_entries_returns X gi
              (get_datasets_page gi hid limit (offset_of i)) l
              (add_call X (GetDatasets hid limit (offset_of i)) w) Hl)
    as (l1 & w1 & E1 & Hl1 & _).
  cbn [get_datasets_from]. cbv [mbind M_bind record_call]. rewrite E1.
  rewrite bool_decide_eq_false_2.
  - rewrite offset_of_next. by apply IH.
  - specialize (Hpages i).
    destruct (get_datasets_page gi hid limit (offset_of i)); simpl; [done|lia].
Qed.

(** X6. On a server that never answers a page request with an
    empty page, as one that ignores the offset, [get_datasets] never
    returns a list.  When the first entry of the first page has a complete
    description it does not end, it runs out of any fuel; when that entry
    lacks a key it raises [UnboundLocalError] there. *)
Theorem get_datasets_needs_an_empty_page gi hid fuel (w : world X) :
  (∀ i : nat, get_datasets_page gi hid limit (offset_of i) ≠ []) ->
  (∀ ds, fst (get_datasets X fuel gi hid w) ≠ Val ds)
  ∧ (∀ e, head (get_datasets_page gi hid limit 0) = Some e ->
          complete (show_dataset gi (entry_id e)) ->
          fst (get_datasets X fuel gi hid w) = Div)
  ∧ (∀ e, head (get_datasets_page gi hid limit 0) = Some e ->
          ¬ complete (show_dataset gi (entry_id e)) ->
          fuel ≠ 0%nat ->
          fst (get_datasets X fuel gi hid w)
          = Exc (UnboundLocalError "dataset")).
Proof.
  intros Hpages. unfold get_datasets.
  destruct fuel as [|fuel]; [by repeat split|].
  pose proof (Hpages 0%nat) as Hne. change (offset_of 0) with 0 in Hne.
  destruct (get_datasets_page gi hid limit 0) as [|e es] eqn:Hpage; [done|].
  destruct (init_cases (show_dataset gi (entry_id e)))
    as [(d & Hd & _) | (key & Hk & Hn & Hm)].
  - assert (fst (get_datasets_from X (S fuel) gi hid 0
                   {| datasets := []; dataset := None |} w) = Div) as Hdiv.
    { destruct (first_page_returns X gi e es
                  {| datasets := []; dataset := None |}
                  (add_call X (GetDatasets hid limit 0) w))
        as (l1 & w1 & E1 & Hl1 & _); [eauto|].
      cbn [get_datasets_from]. cbv [mbind M_bind record_call].
      rewrite Hpage, E1. rewrite bool_decide_eq_false_2 by (simpl; lia).
      change (0 + limit) with (offset_of 1).
      by apply get_datasets_from_diverges. }
    split; [intros ds; by rewrite Hdiv|]. split; [done|].
    intros e' [= <-] Hincomplete. destruct Hincomplete.
    apply init_fields in Hd as (H1 & H2 & H3 & H4 & H5).
    refine (required_key_cases (fun key => is_Some (_ !! key)) _ _ _ _ _);
      eauto.
  - assert (fst (get_datasets_from X (S fuel) gi hid 0
                   {| datasets := []; dataset := None |} w)
            = Exc (UnboundLocalError "dataset")) as Hexc.
    { cbn [get_datasets_from]. cbv [mbind M_bind record_call].
      rewrite Hpage. cbn [for_each]. cbv [mbind M_bind].
      by rewrite (entry_body_missing X gi e _ _ _ Hm). }
    split; [intros ds; by rewrite Hexc|]. split; [|done].
    intros e' [= <-] Hc. destruct (Hc key Hk) as [v Hv]. congruence.
Qed.


End MoreEnumeration.

Lemma get_datasets_returns_normalized_witness :
  ∃ family digits,
    (family = "GRCh" ∨ family = "hg") ∧ digits ≠ EmptyString
    ∧ all_digits digits = true
    ∧ GalaxyDataset.reference_name the_dataset = family +:+ digits
    ∧ match_reference (GalaxyDataset.reference_name the_dataset)
      = Some (GalaxyDataset.reference_name the_dataset).
Proof.
  apply (get_datasets_returns_normalized mem gi_stale h1 5
           [the_dataset; the_dataset] w0
           (snd (get_datasets mem 5 gi_stale h1 w0))).
  - apply run_returns. vm_compute. reflexivity.
  - apply list_elem_of_here.
Defined.

Lemma mixed_complete :
  Forall (fun e => complete (show_dataset gi_mixed (entry_id e)))
    (entries_before gi_mixed h1 2).
Proof.
  repeat constructor;
    refine (required_key_cases (fun key => is_Some (_ !! key)) _ _ _ _ _);
    vm_compute; eauto.
Qed.

Lemma get_datasets_collects_the_matching_entries_witness :
  ∃ w',
    get_datasets mem 3 gi_mixed h1 w0
    = (Val (omap (dataset_of_entry gi_mixed) (entries_before gi_mixed h1 2)),
       w')
    ∧ omap (dataset_of_entry gi_mixed) (entries_before gi_mixed h1 2)
      = [the_dataset; second_dataset]
    ∧ w_log mem w'
      = w_log mem w0
        ++ flat_map (warning_of_entry gi_mixed) (entries_before gi_mixed h1 2)
    ∧ length (flat_map (warning_of_entry gi_mixed)
                (entries_before gi_mixed h1 2)) = 1%nat.
Proof.
  destruct (get_datasets_collects_the_matching_entries mem gi_mixed h1 2 3 w0)
    as (w' & E & L & _).
  - intros i Hi. destruct i as [|[|i]]; [by vm_compute ..|lia].
  - by vm_compute.
  - exact mixed_complete.
  - lia.
  - exists w'. split; [exact E|]. split; [by vm_compute|].
    split; [exact L|]. by vm_compute.
Defined.

Lemma get_datasets_needs_an_empty_page_witness :
  fst (get_datasets mem 1000 gi_forever h1 w0) = Div.
Proof.
  apply (get_datasets_needs_an_empty_page mem gi_forever h1 1000 w0)
    with (e := e_good).
  - intros i. discriminate.
  - reflexivity.
  - exact good_complete.
Defined.


(** ** More on the request for the histories *)

(** X8. [get_beacon_histories] returns a value only when the body
    of the answer is a JSON object with the field ["beacon_histories"], and
    the value is the one of that field; the status is not an obstacle, a
    status other than 200 costs one log record and nothing else. *)
Theorem get_beacon_histories_returns_the_field_only X gi (w w' : world X) v :
  get_beacon_histories X gi w = (Val v, w') ->
  ∃ resp members,
    make_get_request gi (base_url gi +:+ "/api/histories/beacon") = inr resp
    ∧ content resp = Some (JObj members)
    ∧ dict_get members "beacon_histories" = Some v
    ∧ w' = if bool_decide (status_code resp ≠ 200) then add_log X bla w else w.
Proof.
  unfold get_beacon_histories.
  cbv [mbind M_bind mret M_ret lift raise logging].
  destruct (make_get_request gi _) as [e|[status body]]; [done|]. simpl.
  intros H. exists {| status_code := status; content := body |}. simpl.
  destruct body as [[| | | | | |members]|];
    destruct (bool_decide (status ≠ 200)); simpl in H;
    repeat case_match; simplify_eq/=; eauto.
Qed.

Lemma get_beacon_histories_returns_the_field_only_witness :
  ∃ resp members,
    make_get_request gi_one (base_url gi_one +:+ "/api/histories/beacon")
    = inr resp
    ∧ content resp = Some (JObj members)
    ∧ dict_get members "beacon_histories"
      = Some (JArr [JObj [("history_id", JStr "h1")]])
    ∧ snd (get_beacon_histories mem gi_one w0)
      = if bool_decide (status_code resp ≠ 200) then add_log mem bla w0 else w0.
Proof.
  apply (get_beacon_histories_returns_the_field_only mem gi_one w0).
  apply run_returns. reflexivity.
Defined.

(** ** The start of a run *)

(** X9. Whatever the verbosity, the level [set_up_logging]
    configures lets every warning and every critical record through; an
    info record passes exactly when the verbosity is at least 1; and more
    verbosity never hides a record. *)
Theorem set_up_logging_keeps_warnings (verbosity : Z) (log : list log_record) :
  (∀ r, r ∈ log -> lvl r ≠ INFO -> r ∈ emitted (set_up_logging verbosity) log)
  ∧ (∀ r, r ∈ log -> lvl r = INFO ->
          (r ∈ emitted (set_up_logging verbosity) log <-> 1 <= verbosity))
  ∧ (∀ more r, verbosity <= more ->
          r ∈ emitted (set_up_logging verbosity) log ->
          r ∈ emitted (set_up_logging more) log).
Proof.
  unfold emitted, set_up_logging. split; [|split].
  - intros r Hr Hl. apply list_elem_of_filter. split; [|done].
    destruct (lvl r); [done|..]; simpl; repeat case_match; lia.
  - intros r Hr Hl. rewrite list_elem_of_filter, Hl. simpl.
    destruct (1 <? verbosity) eqn:E1; [apply Z.ltb_lt in E1; split; [lia|]|].
    + intros _. split; [lia|done].
    + apply Z.ltb_ge in E1.
      destruct (verbosity =? 1) eqn:E2;
        [apply Z.eqb_eq in E2|apply Z.eqb_neq in E2];
        (split; [intros [H _]; lia|intros H; split; [lia|done]]).
  - intros more r Hmore. rewrite !list_elem_of_filter.
    intros [H Hr]. split; [|done].
    destruct (lvl r); simpl in *; repeat case_match;
      rewrite ?Z.ltb_lt, ?Z.ltb_ge, ?Z.eqb_eq, ?Z.eqb_neq in *; lia.
Qed.

(** X10. [set_up_galaxy_instance] lets no exception escape: it
    either returns the instance or exits with status 2, the last log record
    being critical then.  It returns exactly when the constructor gives an
    instance and [whoami] is answered with status 200 and a JSON object that
    has a username.  It asks for no dataset, downloads nothing, calls no
    function of the database, and leaves the files, the database and the
    origin file as they were. *)
Theorem set_up_galaxy_instance_returns_or_exits X P url key (w : world X) :
  let r := set_up_galaxy_instance X P url key w in
  (fst r = Exit 2 ∨ ∃ gi, fst r = Val gi)
  ∧ (∀ gi,
       fst r = Val gi <->
       galaxy_instance P url key = inr gi
       ∧ ∃ members user,
           make_get_request gi (url +:+ "/api/whoami")
           = inr {| status_code := 200; content := Some (JObj members) |}
           ∧ dict_get members "username" = Some user)
  ∧ (fst r = Exit 2 ->
     ∃ m, last (w_log X (snd r)) = Some {| lvl := CRITICAL; msg := m |})
  ∧ w_calls X (snd r) = w_calls X w ∧ w_fs X (snd r) = w_fs X w
  ∧ w_db X (snd r) = w_db X w ∧ w_origins X (snd r) = w_origins X w.
Proof.
  unfold set_up_galaxy_instance, try_except, py_exit.
  cbv [mbind M_bind mret M_ret lift raise logging].
  destruct (galaxy_instance P url key) as [e|gi0] eqn:Hgi; simpl.
  { split; [by left|]. split.
    - intros gi. split; [done|]. by intros [? _].
    - split; [|done]. intros _. rewrite last_snoc. eauto. }
  destruct (make_get_request gi0 (url +:+ "/api/whoami"))
    as [e|[status body]] eqn:Hreq; simpl.
  { split; [by left|]. split.
    - intros gi. split; [done|].
      intros [[= <-] (members & user & Hr & _)]. congruence.
    - split; [|done]. intros _. rewrite last_snoc. eauto. }
  assert (∀ (gi : GalaxyInstance) (Q : Prop),
            (status = 200 -> ∀ members user,
               body = Some (JObj members) ->
               dict_get members "username" = Some user -> Q) ->
            @inr string GalaxyInstance gi0 = inr gi
            ∧ (∃ members user,
                 make_get_request gi (url +:+ "/api/whoami")
                 = inr {| status_code := 200;
                          content := Some (JObj members) |}
                 ∧ dict_get members "username" = Some user) -> Q) as Hinv.
  { intros gi Q HQ [[= <-] (members & user & Hr & Hu)].
    rewrite Hreq in Hr. injection Hr as -> ->. by eapply HQ. }
  destruct body as [content|]; simpl.
  2:{ split; [by left|]. split.
      - intros gi. split; [done|]. apply Hinv. done.
      - split; [|done]. intros _. rewrite last_snoc. eauto. }
  destruct (bool_decide (status ≠ 200)) eqn:Hstatus.
  - apply bool_decide_eq_true in Hstatus.
    destruct (py_getitem content "err_msg") as [e|err]; simpl;
      (split; [by left|]);
      (split; [intros gi; split; [done|apply Hinv; done]|]);
      (split; [|done]); intros _; rewrite last_snoc; eauto.
  - apply bool_decide_eq_false in Hstatus.
    assert (status = 200) as ->
      by (destruct (decide (status = 200)); [done|by destruct Hstatus]).
    simpl. unfold py_getitem.
    destruct content as [| | | | | |members]; simpl;
      try (split; [by left|]; split;
           [intros gi; split; [done|apply Hinv; done]
           |split; [|done]; intros _; rewrite last_snoc; eauto]).
    destruct (dict_get members "username") as [user|] eqn:Huser; simpl.
    + split; [right; eauto|]. split.
      * intros gi. split.
        -- intros [= <-]. eauto.
        -- by intros [[= <-] _].
      * split; [done|done].
    + split; [by left|]. split.
      * intros gi. split; [done|]. apply Hinv.
        intros _ members' user [= <-] Hu. congruence.
      * split; [|done]. intros _. rewrite last_snoc. eauto.
Qed.

(** A run on a server that is there and one on a host that is not. *)
Example set_up_galaxy_instance_runs :
  fst (set_up_galaxy_instance mem python_admin "http://galaxy" "key" w0)
  = Val gi_admin
  ∧ map lvl (w_log mem (snd (set_up_galaxy_instance mem python_admin
                               "http://galaxy" "key" w0)))
    = [INFO; INFO]
  ∧ fst (set_up_galaxy_instance mem python "nowhere" "key" w0) = Exit 2
  ∧ map lvl (w_log mem (snd (set_up_galaxy_instance mem python
                               "nowhere" "key" w0)))
    = [INFO; CRITICAL]
  ∧ fst (set_up_galaxy_instance mem python "http://localhost:8080" "key" w0)
    = Exit 2.
Proof. repeat split; vm_compute; reflexivity. Qed.

(** ** More on the metadata document *)

Lemma is_az_upper_az (c : ascii) : is_az c = true -> is_az (upper_az c) = false.
Proof.
  destruct c as [[] [] [] [] [] [] [] []]; vm_compute; congruence.
Qed.

Lemma upper_az_not_underscore (c : ascii) :
  is_az c = true -> Ascii.eqb (upper_az c) "_"%char = false.
Proof.
  destruct c as [[] [] [] [] [] [] [] []]; vm_compute; congruence.
Qed.

Lemma camel_case_cons (c d : ascii) (rest : string) :
  camel_case (String c (String d rest))
  = if Ascii.eqb c "_"%char && is_az d
    then String (upper_az d) (camel_case rest)
    else String c (camel_case (String d rest)).
Proof. reflexivity. Qed.

Lemma has_snake_joint_cons (c d : ascii) (rest : string) :
  has_snake_joint (String c (String d rest))
  = (Ascii.eqb c "_"%char && is_az d) || has_snake_joint (String d rest).
Proof. reflexivity. Qed.

(** The first character of the result is the first character of the text
    or a capital. *)
Lemma camel_case_head (c : ascii) (rest : string) :
  ∃ c' rest', camel_case (String c rest) = String c' rest'
              ∧ (c' = c ∨ (is_az c' = false ∧ Ascii.eqb c' "_"%char = false)).
Proof.
  destruct rest as [|d rest]; [by eexists _, _; split; [reflexivity|left]|].
  rewrite camel_case_cons.
  destruct (Ascii.eqb c "_"%char && is_az d) eqn:E.
  - apply andb_prop in E as [_ Hd]. eexists _, _. split; [reflexivity|].
    right. split; [by apply is_az_upper_az|by apply upper_az_not_underscore].
  - eexists _, _. split; [reflexivity|by left].
Qed.

Lemma camel_case_props (n : nat) : ∀ s,
  (String.length s <= n)%nat ->
  has_snake_joint (camel_case s) = false
  ∧ (String.length (camel_case s) <= String.length s)%nat
  ∧ (has_snake_joint s = false -> camel_case s = s).
Proof.
  induction n as [|n IH]; intros s Hn.
  - destruct s; [done|simpl in Hn; lia].
  - destruct s as [|c [|d rest]]; [done|done|].
    simpl in Hn. rewrite camel_case_cons.
    destruct (Ascii.eqb c "_"%char && is_az d) eqn:E.
    + destruct (IH rest ltac:(lia)) as (H1 & H2 & H3).
      apply andb_prop in E as [Hc Hd]. split; [|split].
      * destruct (camel_case rest) as [|x r] eqn:Er; [done|].
        rewrite has_snake_joint_cons.
        rewrite (upper_az_not_underscore d Hd). simpl. exact H1.
      * simpl. lia.
      * rewrite has_snake_joint_cons, Hc, Hd. done.
    + destruct (IH (String d rest) ltac:(simpl; lia)) as (H1 & H2 & H3).
      split; [|split].
      * destruct (camel_case_head d rest) as (c' & rest' & Er & Hc').
        rewrite Er in *. rewrite has_snake_joint_cons, H1, orb_false_r.
        destruct Hc' as [-> | [Haz _]]; [exact E|].
        by rewrite Haz, andb_false_r.
      * simpl in *. lia.
      * rewrite has_snake_joint_cons, E. cbn [orb]. intros Hr. by rewrite H3.
Qed.

(** X11. The conversion of [__json__] leaves no underscore followed
    by a letter of a-z, so converting again changes nothing; the result is
    never longer than the name; and a name without such a pair is
    unchanged. *)
Theorem camel_case_leaves_no_snake_joint (s : string) :
  has_snake_joint (camel_case s) = false
  ∧ camel_case (camel_case s) = camel_case s
  ∧ (String.length (camel_case s) <= String.length s)%nat
  ∧ (has_snake_joint s = false -> camel_case s = s).
Proof.
  destruct (camel_case_props (String.length s) s (le_n _)) as (H1 & H2 & H3).
  split; [done|]. split; [|done].
  by apply (camel_case_props (String.length (camel_case s)) _ (le_n _)).
Qed.

Lemma all_printable_app (a b : string) :
  all_printable (a +:+ b) = all_printable a && all_printable b.
Proof.
  unfold all_printable. induction a as [|c a IH]; [done|].
  rewrite append_cons. simpl. by rewrite IH, andb_assoc.
Qed.

Lemma escape_char_printable (c : ascii) : all_printable (escape_char c) = true.
Proof. destruct c as [[] [] [] [] [] [] [] []]; vm_compute; reflexivity. Qed.

Lemma escape_printable (s : string) : all_printable (escape s) = true.
Proof.
  induction s as [|c s IH]; [done|]. simpl.
  by rewrite all_printable_app, escape_char_printable, IH.
Qed.

Lemma json_string_printable (s : string) : all_printable (json_string s) = true.
Proof.
  unfold json_string. by rewrite !all_printable_app, escape_printable.
Qed.

Lemma string_of_uint_printable (d : Decimal.uint) :
  all_printable (NilEmpty.string_of_uint d) = true.
Proof. induction d; simpl; done. Qed.

Lemma string_of_uint_zero_printable (d : Decimal.uint) :
  all_printable (NilZero.string_of_uint d) = true.
Proof.
  destruct d; first [reflexivity | exact (string_of_uint_printable _)].
Qed.

Lemma str_of_int_printable (n : Z) : all_printable (str_of_int n) = true.
Proof.
  unfold str_of_int, NilZero.string_of_int.
  destruct (Z.to_int n) as [d|d].
  - apply string_of_uint_zero_printable.
  - change (all_printable (String "-" (NilZero.string_of_uint d)))
      with (printable "-" && all_printable (NilZero.string_of_uint d)).
    by rewrite string_of_uint_zero_printable.
Qed.

Lemma join_printable (sep : string) (parts : list string) :
  all_printable sep = true ->
  Forall (fun p => all_printable p = true) parts ->
  all_printable (join sep parts) = true.
Proof.
  intros Hsep. induction 1 as [|p parts Hp Hparts IH]; [done|].
  destruct parts as [|q parts]; [done|].
  change (join sep (p :: q :: parts)) with (p +:+ sep +:+ join sep (q :: parts)).
  by rewrite !all_printable_app, Hp, Hsep, IH.
Qed.

Lemma data_eq (m : BeaconMetadata.t) :
  BeaconMetadata.data m
  = map (fun item => (camel_case (fst item), snd item)) (BeaconMetadata.vars m).
Proof. reflexivity. Qed.

Lemma metadata_json_printable (m : BeaconMetadata.t) :
  all_printable (BeaconMetadata.__json__ m) = true.
Proof.
  unfold BeaconMetadata.__json__.
  change (json_dumps (JObj (BeaconMetadata.data m)))
    with ("{" +:+ join ", "
                    (map (fun kv => json_string (fst kv) +:+ ": "
                                    +:+ json_dumps (snd kv))
                         (BeaconMetadata.data m)) +:+ "}").
  rewrite !all_printable_app, join_printable; [done|done|].
  rewrite data_eq, Forall_map, Forall_map. unfold BeaconMetadata.vars.
  repeat constructor; cbn [fst snd json_dumps];
    by rewrite !all_printable_app, json_string_printable,
         ?json_string_printable, ?str_of_int_printable.
Qed.

(** X12. The metadata document written for a dataset consists of
    characters from the space to the tilde only, whatever the reference
    name and the readings of the clock contain.  The document is in the
    file when [prepare_metadata_file] returns; the function raises, and
    writes nothing, only when [open] raises at the path. *)
Theorem metadata_document_is_printable_ascii X d path (w : world X) :
  ∃ text,
    writes X path text w (prepare_metadata_file X d path w)
    ∧ all_printable text = true
    ∧ (∀ c, c ∈ String.list_ascii_of_string text ->
            (32 <= code c <= 126)%N).
Proof.
  exists (BeaconMetadata.__json__ (metadata_in X d w)).
  split; [apply prepare_metadata_file_document|].
  pose proof (metadata_json_printable (metadata_in X d w)) as H.
  split; [exact H|]. intros c Hc. unfold all_printable in H.
  rewrite forallb_forall in H. apply list_elem_of_In, H in Hc.
  unfold printable in Hc. apply andb_prop in Hc as [H1 H2].
  apply N.leb_le in H1, H2. done.
Qed.

(** X13. Two datasets with the same reference name, written at the
    same readings of the clock, get the same metadata document: the name,
    the id, the uuid and the extension of a dataset do not show in it.
    Each document is in its file when [prepare_metadata_file] returns; the
    function raises, and writes nothing, only when [open] raises at the
    path. *)
Theorem metadata_document_shows_the_reference_only X d1 d2 p1 p2
  (w1 w2 : world X) :
  GalaxyDataset.reference_name d1 = GalaxyDataset.reference_name d2 ->
  w_clock X w1 = w_clock X w2 ->
  ∃ text,
    writes X p1 text w1 (prepare_metadata_file X d1 p1 w1)
    ∧ writes X p2 text w2 (prepare_metadata_file X d2 p2 w2).
Proof.
  intros Hr Hc. exists (BeaconMetadata.__json__ (metadata_in X d1 w1)).
  split; [apply prepare_metadata_file_document|].
  replace (metadata_in X d1 w1) with (metadata_in X d2 w2)
    by (unfold metadata_in, assemble_metadata; by rewrite Hr, Hc).
  apply prepare_metadata_file_document.
Qed.

Lemma metadata_document_shows_the_reference_only_witness :
  ∃ text,
    w_fs mem (snd (prepare_metadata_file mem the_dataset "/tmp/a" w0))
    !! "/tmp/a" = Some text
    ∧ w_fs mem (snd (prepare_metadata_file mem other_dataset "/tmp/b" w0))
      !! "/tmp/b" = Some text.
Proof.
  destruct (metadata_document_shows_the_reference_only mem the_dataset
              other_dataset "/tmp/a" "/tmp/b" w0 w0 eq_refl eq_refl)
    as (text & H1 & H2).
  exists text. split; [exact (proj2 H1)|exact (proj2 H2)].
Defined.

(** ** More on a cycle *)

Lemma paths_differ (d : GalaxyDataset.t) : dataset_path d ≠ metadata_path d.
Proof.
  unfold dataset_path, metadata_path. intros H.
  apply (f_equal (String.get 5)) in H. vm_compute in H. discriminate.
Qed.

Section MoreCycle.

Context (X : externals).

(** [beacon_import] changes the database and the calls only. *)
Lemma beacon_import_frame df mf (w : world X) :
  w_fs X (snd (beacon_import X df mf w)) = w_fs X w
  ∧ w_log X (snd (beacon_import X df mf w)) = w_log X w
  ∧ w_origins X (snd (beacon_import X df mf w)) = w_origins X w
  ∧ w_clock X (snd (beacon_import X df mf w)) = w_clock X w.
Proof.
  rewrite beacon_import_eq.
  destruct (w_fs X w !! df) as [text|]; [|done].
  destruct (parse_vcf X text) as [records|]; [|done]. cbv zeta.
  destruct (load_metadata X _ _ _ _ _) as [e|[dataset_id c1]]; [done|].
  destruct (load_datafile X _ _ _ _ _ _) as [e|c2]; done.
Qed.

Lemma download_dataset_eq gi d filename (w : world X) :
  download_dataset X gi d filename w
  = (Val tt,
     let w1 := add_call X (DownloadDataset (GalaxyDataset.id d) filename) w in
     match download gi (GalaxyDataset.id d) with
     | inr bytes => put_fs X (<[filename := bytes]> (w_fs X w)) w1
     | inl (e, Some text) =>
         add_log X (download_failure e)
           (put_fs X (<[filename := text]> (w_fs X w)) w1)
     | inl (e, None) => add_log X (download_failure e) w1
     end).
Proof.
  unfold download_dataset, leave_file, logging.
  cbv [mbind M_bind record_call].
  by destruct (download gi (GalaxyDataset.id d)) as [[e [text|]]|bytes].
Qed.

(** The world after the download of a cycle. *)
Lemma download_dataset_world gi d (w : world X) :
  ∃ w1,
    download_dataset X gi d (dataset_path d) w = (Val tt, w1)
    ∧ w_fs X w1 = files_after_download gi d (w_fs X w)
    ∧ w_clock X w1 = w_clock X w
    ∧ (∀ e remains, download gi (GalaxyDataset.id d) = inl (e, remains) ->
         download_failure e ∈ w_log X w1).
Proof.
  rewrite download_dataset_eq. eexists. split; [reflexivity|].
  unfold files_after_download, left_by_download.
  destruct (download gi (GalaxyDataset.id d)) as [[e [text|]]|bytes];
    cbn [w_fs w_clock w_log add_log add_call put_fs];
    (split; [done|]); (split; [done|]);
    intros e' remains [= <- <-] || intros e' remains [=]; set_solver.
Qed.

(** The files a cycle leaves, whatever its outcome. *)
Lemma import_dataset_files args gi d (w : world X) :
  w_fs X (snd (import_dataset X args gi d w))
  = match open_w X (metadata_path d) with
    | None =>
        <[metadata_path d := BeaconMetadata.__json__ (metadata_in X d w)]>
          (files_after_download gi d (w_fs X w))
    | Some _ => files_after_download gi d (w_fs X w)
    end.
Proof.
  unfold import_dataset.
  unfold mbind at 1, M_bind at 1. unfold logging at 1.
  unfold mbind at 1, M_bind at 1.
  destruct (download_dataset_world gi d (add_log X (next_file d) w))
    as (w1 & Hd & Hfs & Hclock & _).
  unfold next_file in Hd. rewrite Hd.
  unfold mbind at 1, M_bind at 1. rewrite prepare_metadata_file_writes.
  cbn [w_fs w_clock add_log] in Hfs, Hclock.
  destruct (open_w X (metadata_path d)) as [e|]; [done|].
  unfold mbind at 1, M_bind at 1.
  assert (metadata_in X d w1 = metadata_in X d w) as ->
    by (unfold metadata_in; by rewrite Hclock).
  set (w2 := put_fs X _ (tick X (tick X w1))).
  destruct (beacon_import_frame (dataset_path d) (metadata_path d) w2)
    as (Hf & _).
  destruct (beacon_import X (dataset_path d) (metadata_path d) w2)
    as [[[]| | |] w3] eqn:Hb; simpl in Hf; try (simpl; by rewrite Hf, Hfs).
  destruct (skip_origins args); cbn [negb]; [simpl; by rewrite Hf, Hfs|].
  unfold mbind, M_bind, VCF.
  destruct (w_fs X w3 !! dataset_path d) as [text|];
    [|simpl; by rewrite Hf, Hfs].
  destruct (parse_vcf X text) as [records|]; [|simpl; by rewrite Hf, Hfs].
  rewrite persist_variant_origins_eq. simpl. by rewrite Hf, Hfs.
Qed.

(** The file at the dataset path after a cycle. *)
Lemma import_cycle_files_aux args gi d (w : world X) :
  w_fs X (snd (import_dataset X args gi d w)) !! dataset_path d
  = match download gi (GalaxyDataset.id d) with
    | inr bytes => Some bytes
    | inl (_, Some incomplete) => Some incomplete
    | inl (_, None) => w_fs X w !! dataset_path d
    end.
Proof.
  rewrite import_dataset_files.
  unfold files_after_download, left_by_download.
  pose proof (paths_differ d) as Hne.
  destruct (open_w X (metadata_path d)) as [e'|];
    destruct (download gi (GalaxyDataset.id d)) as [[e [text|]]|bytes];
    rewrite ?(lookup_insert_ne _ (metadata_path d) (dataset_path d)) by done;
    rewrite ?lookup_insert_eq; done.
Qed.


(** X15. When the download fails without writing anything and there is
    no file at the dataset path, the cycle logs the failure and raises
    before the database is called.  When the metadata file cannot be
    opened for writing, it raises the exception of [open]; otherwise it
    writes the metadata file and raises the [OSError] of [cyvcf2] for the
    dataset file it cannot open. *)
Theorem failed_download_stops_at_the_missing_file args gi d (w : world X) e :
  download gi (GalaxyDataset.id d) = inl (e, None) ->
  w_fs X w !! dataset_path d = None ->
  let w1 :=
    tick X (tick X
      (add_log X (download_failure e)
         (add_call X (DownloadDataset (GalaxyDataset.id d) (dataset_path d))
            (add_log X (next_file d) w)))) in
  import_dataset X args gi d w
  = match open_w X (metadata_path d) with
    | Some e' => (Exc e', w1)
    | None =>
        (Exc (OSError ("Error opening " +:+ dataset_path d)),
         put_fs X
           (<[metadata_path d := BeaconMetadata.__json__ (metadata_in X d w)]>
              (w_fs X w))
           w1)
    end.
Proof.
  intros Hdown Hfile w1. subst w1. unfold import_dataset.
  unfold mbind at 1, M_bind at 1. unfold logging at 1.
  unfold mbind at 1, M_bind at 1. rewrite download_dataset_eq, Hdown.
  unfold mbind at 1, M_bind at 1. rewrite prepare_metadata_file_writes.
  destruct (open_w X (metadata_path d)) as [e'|]; [done|].
  unfold mbind at 1, M_bind at 1. rewrite beacon_import_eq.
  cbn [w_fs put_fs tick add_log add_call].
  rewrite lookup_insert_ne by (intros H; by apply (paths_differ d)).
  rewrite Hfile. done.
Qed.

(** X16. When the download fails and the cycle returns all the same,
    the file that was parsed and loaded is the incomplete file the failed
    transfer left at the dataset path, or, when the transfer wrote nothing,
    the file that was at the path before the cycle; the failure is in the
    log. *)
Theorem failed_download_imports_what_is_there args gi d (w w' : world X)
  e remains :
  download gi (GalaxyDataset.id d) = inl (e, remains) ->
  import_dataset X args gi d w = (Val tt, w') ->
  ∃ text records dataset_id c1,
    match remains with
    | Some incomplete => text = incomplete
    | None => w_fs X w !! dataset_path d = Some text
    end
    ∧ w_fs X w' !! dataset_path d = Some text
    ∧ parse_vcf X text = Some records
    ∧ load_metadata X (w_db X w) (w_fs X w') records (metadata_path d)
        (dataset_path d) = inr (dataset_id, c1)
    ∧ load_datafile X c1 (w_fs X w') records (dataset_path d) dataset_id 0
      = inr (w_db X w')
    ∧ download_failure e ∈ w_log X w'.
Proof.
  intros Hdown Hrun.
  destruct (import_dataset_returns X args gi d w w' Hrun)
    as (text & records & dataset_id & c1 & Hfile & Hparse & _ & Hmeta & Hdata
        & _).
  exists text, records, dataset_id, c1.
  pose proof (import_cycle_files_aux args gi d w) as Hfiles.
  rewrite Hrun in Hfiles. cbn [snd] in Hfiles. rewrite Hdown in Hfiles.
  rewrite Hfile in Hfiles.
  split; [by destruct remains as [incomplete|]; [injection Hfiles|]|].
  repeat (split; [done|]).
  revert Hrun. unfold import_dataset.
  unfold mbind at 1, M_bind at 1. unfold logging at 1.
  unfold mbind at 1, M_bind at 1.
  destruct (download_dataset_world gi d (add_log X (next_file d) w))
    as (w1 & Hd & _ & _ & Hlog).
  unfold next_file in Hd. rewrite Hd.
  unfold mbind at 1, M_bind at 1. rewrite prepare_metadata_file_writes.
  destruct (open_w X (metadata_path d)) as [e'|]; [done|].
  unfold mbind at 1, M_bind at 1.
  set (w2 := put_fs X _ _).
  assert (download_failure e ∈ w_log X w2) as Hin
    by (subst w2; simpl; by eapply Hlog).
  destruct (beacon_import_frame (dataset_path d) (metadata_path d) w2)
    as (_ & Hl & _).
  destruct (beacon_import X (dataset_path d) (metadata_path d) w2)
    as [[[]| | |] w3] eqn:Hb; try done. simpl in Hl.
  destruct (skip_origins args); cbn [negb].
  - intros [= <-]. by rewrite Hl.
  - unfold mbind, M_bind, VCF.
    destruct (w_fs X w3 !! dataset_path d) as [text'|]; [|done].
    destruct (parse_vcf X text') as [records'|]; [|done].
    rewrite persist_variant_origins_eq. intros [= <-]. simpl. by rewrite Hl.
Qed.

(** X17. [cleanup] removes the first file, then the second: it
    raises for the first one that is missing, the first file being already
    removed when it is the second; it returns exactly when both files are
    there and the paths differ; and it touches no other file. *)
Theorem cleanup_removes_the_two_files df mf (w : world X) :
  match w_fs X w !! df with
  | None => cleanup X df mf w = (Exc (FileNotFoundError df), w)
  | Some _ =>
      match delete df (w_fs X w) !! mf with
      | None =>
          cleanup X df mf w
          = (Exc (FileNotFoundError mf), put_fs X (delete df (w_fs X w)) w)
      | Some _ =>
          cleanup X df mf w
          = (Val tt, put_fs X (delete mf (delete df (w_fs X w))) w)
      end
  end
  ∧ (fst (cleanup X df mf w) = Val tt <->
     is_Some (w_fs X w !! df) ∧ is_Some (w_fs X w !! mf) ∧ df ≠ mf)
  ∧ (∀ path, path ≠ df -> path ≠ mf ->
       w_fs X (snd (cleanup X df mf w)) !! path = w_fs X w !! path).
Proof.
  unfold cleanup, os_remove. cbv [mbind M_bind].
  destruct (w_fs X w !! df) as [t1|] eqn:H1; simpl.
  - destruct (delete df (w_fs X w) !! mf) as [t2|] eqn:H2; simpl.
    + split; [done|]. split.
      * split; [intros _|done].
        apply lookup_delete_Some in H2 as [Hne H2]. eauto.
      * intros path Hp1 Hp2. by rewrite !lookup_delete_ne.
    + split; [done|]. split.
      * split; [done|]. intros (_ & [t Ht] & Hne).
        rewrite lookup_delete_ne in H2 by done. congruence.
      * intros path Hp1 Hp2. by rewrite !lookup_delete_ne.
  - split; [done|]. split; [|done].
    split; [done|]. by intros ([t Ht] & _).
Qed.

(** X18. After a cycle that returns, [cleanup] on the two paths of
    the dataset returns; if the two paths were free before the cycle, the
    files are then as before the cycle, and the database, the origin file,
    the log and the calls are as the cycle left them. *)
Theorem cleanup_undoes_a_cycle args gi d (w w' : world X) :
  import_dataset X args gi d w = (Val tt, w') ->
  ∃ w'',
    cleanup X (dataset_path d) (metadata_path d) w' = (Val tt, w'')
    ∧ (w_fs X w !! dataset_path d = None ->
       w_fs X w !! metadata_path d = None ->
       w_fs X w'' = w_fs X w)
    ∧ w_db X w'' = w_db X w' ∧ w_origins X w'' = w_origins X w'
    ∧ w_log X w'' = w_log X w' ∧ w_calls X w'' = w_calls X w'.
Proof.
  intros Hrun.
  destruct (import_dataset_returns X args gi d w w' Hrun)
    as (text & records & dataset_id & c1 & Hfile & _ & Hmeta & _).
  pose proof (paths_differ d) as Hne.
  eexists. unfold cleanup, os_remove. cbv [mbind M_bind].
  rewrite Hfile. cbn [w_fs put_fs].
  rewrite lookup_delete_ne, Hmeta by done.
  split; [reflexivity|]. cbn [w_fs w_db w_origins w_log w_calls put_fs].
  split; [|done]. intros Hd Hm.
  pose proof (import_dataset_files args gi d w) as Hfs.
  rewrite Hrun in Hfs. cbn [snd] in Hfs.
  apply map_eq. intros p.
  destruct (decide (p = metadata_path d)) as [->|H1];
    [by rewrite lookup_delete_eq|].
  rewrite lookup_delete_ne by done.
  destruct (decide (p = dataset_path d)) as [->|H2];
    [by rewrite lookup_delete_eq|].
  rewrite lookup_delete_ne, Hfs by done.
  unfold files_after_download.
  destruct (open_w X (metadata_path d)) as [e|];
    destruct (left_by_download gi d) as [bytes|];
    by rewrite ?lookup_insert_ne by done.
Qed.

End MoreCycle.

(** ** The query of [get_variant_indices] *)

Lemma to_int_not_nil (n : Z) :
  Z.to_int n ≠ Decimal.Pos Decimal.Nil ∧ Z.to_int n ≠ Decimal.Neg Decimal.Nil.
Proof.
  destruct n as [|p|p]; simpl; split; try discriminate;
    intros [= H]; by apply (Unsigned.to_uint_nonnil p).
Qed.

Lemma str_of_int_inj (a b : Z) : str_of_int a = str_of_int b -> a = b.
Proof.
  unfold str_of_int. intros H.
  apply (f_equal NilZero.int_of_string) in H.
  destruct (to_int_not_nil a) as [Ha1 Ha2].
  destruct (to_int_not_nil b) as [Hb1 Hb2].
  rewrite !NilZero.isi in H by done.
  injection H as H. by apply to_int_inj.
Qed.

(** The characters of a number in decimal are digits and the minus sign. *)
Lemma string_of_uint_chars (P : ascii -> Prop) (d : Decimal.uint) :
  (∀ c, is_digit c = true -> P c) ->
  Forall P (String.list_ascii_of_string (NilEmpty.string_of_uint d)).
Proof.
  intros HP. induction d; simpl; constructor; try done; by apply HP.
Qed.

Lemma str_of_int_chars (P : ascii -> Prop) (n : Z) :
  (∀ c, is_digit c = true -> P c) -> P "-"%char ->
  Forall P (String.list_ascii_of_string (str_of_int n)).
Proof.
  intros HP Hminus. unfold str_of_int, NilZero.string_of_int.
  assert (∀ d, Forall P (String.list_ascii_of_string
                           (NilZero.string_of_uint d))) as Hu.
  { intros d. destruct d;
      first [exact (string_of_uint_chars P _ HP)
            | simpl; constructor; [by apply HP|constructor]]. }
  destruct (Z.to_int n) as [d|d]; [apply Hu|].
  simpl. constructor; [done|apply Hu].
Qed.

(** A text is cut by the first occurrence of a character in one way only. *)
Lemma cut_at_first (c : ascii) : ∀ s1 s2 t1 t2 : string,
  ¬ In c (String.list_ascii_of_string s1) ->
  ¬ In c (String.list_ascii_of_string s2) ->
  s1 +:+ String c t1 = s2 +:+ String c t2 -> s1 = s2 ∧ t1 = t2.
Proof.
  induction s1 as [|a s1 IH]; intros [|b s2] t1 t2 H1 H2; rewrite ?append_cons,
    ?append_empty_l; intros [= ]; subst.
  - done.
  - destruct H2. by left.
  - destruct H1. by left.
  - destruct (IH s2 t1 t2) as [-> ->]; try done.
    + intros Hin. apply H1. by right.
    + intros Hin. apply H2. by right.
Qed.

Lemma length_append (a b : string) :
  String.length (a +:+ b) = (String.length a + String.length b)%nat.
Proof.
  induction a as [|x a IH]; [done|]. rewrite append_cons. simpl. by rewrite IH.
Qed.

Lemma append_inj_r (a b q : string) : a +:+ q = b +:+ q -> a = b.
Proof.
  intros H.
  assert (String.length a = String.length b) as Hlen.
  { apply (f_equal String.length) in H.
    rewrite !length_append in H. lia. }
  revert b H Hlen. induction a as [|x a IH]; intros [|y b] H Hlen;
    try done; simpl in Hlen.
  rewrite !append_cons in H. injection H as -> H. f_equal. apply IH; [done|lia].
Qed.

Lemma str_of_int_no_space (n : Z) :
  ¬ In " "%char (String.list_ascii_of_string (str_of_int n)).
Proof.
  intros Hin.
  pose proof (str_of_int_chars (fun c => c ≠ " "%char) n) as H.
  rewrite Forall_forall in H. eapply H; [| |by apply list_elem_of_In|done].
  - intros c Hc ->. done.
  - done.
Qed.

Lemma select_indices_cut (start : Z) (ref alt : string) :
  select_indices start ref alt
  = "SELECT index FROM beacon_data_table where start="
    +:+ (str_of_int start
         +:+ String " "
               ("AND reference='"
                +:+ (ref
                     +:+ String (ascii_of_N 39)
                           (" and alternate='" +:+ (alt +:+ "'"))))).
Proof. reflexivity. Qed.

(** X19. Two variants with the same query text are the same
    variant, as long as the reference alleles contain no single quote: the
    start, the reference and the alternate allele can be read off the
    query. *)
Theorem select_indices_tells_variants_apart (start start' : Z)
  (ref ref' alt alt' : string) :
  quote_free ref -> quote_free ref' ->
  select_indices start ref alt = select_indices start' ref' alt' ->
  start = start' ∧ ref = ref' ∧ alt = alt'.
Proof.
  unfold quote_free. intros Hq Hq' H. rewrite !select_indices_cut in H.
  apply String.app_inj in H.
  apply cut_at_first in H as [Hstart H]; try apply str_of_int_no_space.
  apply str_of_int_inj in Hstart as ->.
  apply String.app_inj in H.
  apply cut_at_first in H as [-> H]; [|done|done].
  apply String.app_inj in H. apply append_inj_r in H. done.
Qed.

Lemma select_indices_tells_variants_apart_witness :
  quote_free "ACG"
  ∧ select_indices 100 "ACG" "T" = select_indices (99 + 1) "ACG" "T"
  ∧ 100 = 99 + 1 ∧ "ACG" = "ACG" ∧ "T" = "T".
Proof.
  assert (Hq : quote_free "ACG").
  { unfold quote_free. simpl. intros [H|[H|[H|[]]]]; discriminate. }
  split; [exact Hq|]. split; [reflexivity|].
  apply (select_indices_tells_variants_apart 100 (99 + 1) "ACG" "ACG" "T" "T").
  - exact Hq.
  - exact Hq.
  - reflexivity.
Defined.

(** A quote in the reference allele is enough for two variants to share a
    query. *)
Example select_indices_with_a_quote :
  select_indices 100 "A" "T' and alternate='T"
  = select_indices 100 "A' and alternate='T" "T".
Proof. reflexivity. Qed.

(** ** What a whole run keeps *)

Section Frame.

Context (X : externals) (R : world X -> world X -> Prop).
Context (R_refl : ∀ w, R w w).
Context (R_trans : ∀ a b c, R a b -> R b c -> R a c).
Context (R_log : ∀ r w, R w (add_log X r w)).
Context (R_call : ∀ c w, (∀ query, c ≠ Fetch query) -> R w (add_call X c w)).
Context (R_write : ∀ path text w,
           R w (put_fs X (<[path := text]> (w_fs X w)) w)).
Context (R_db : ∀ c w, R w (put_db X c w)).
Context (R_tick : ∀ w, R w (tick X w)).

Lemma keeps_ret {A : Type} (a : A) : keeps R (mret a : M X A).
Proof. intros w. apply R_refl. Qed.

Lemma keeps_bind {A B : Type} (m : M X A) (f : A -> M X B) :
  keeps R m -> (∀ a, keeps R (f a)) -> keeps R (m ≫= f).
Proof.
  intros Hm Hf w. unfold mbind, M_bind.
  specialize (Hm w). destruct (m w) as [[a| | |] w1]; simpl in *; try done.
  eapply R_trans; [exact Hm|apply Hf].
Qed.

Lemma keeps_lift {A : Type} (r : exn + A) : keeps R (lift X r).
Proof. intros w. destruct r; apply R_refl. Qed.

Lemma keeps_raise {A : Type} (e : exn) : keeps R (raise X e : M X A).
Proof. intros w. apply R_refl. Qed.

Lemma keeps_logging l m : keeps R (logging X l m).
Proof. intros w. apply R_log. Qed.

Lemma keeps_record_call c :
  (∀ query, c ≠ Fetch query) -> keeps R (record_call X c).
Proof. intros Hc w. by apply R_call. Qed.

Lemma keeps_for_each {A S : Type} (l : list A) (body : A -> S -> M X S) :
  (∀ x s, keeps R (body x s)) -> ∀ s, keeps R (for_each X l body s).
Proof.
  intros Hbody. induction l as [|x l IH]; intros s.
  - apply keeps_ret.
  - cbn [for_each]. apply keeps_bind; [apply Hbody|apply IH].
Qed.

Lemma keeps_ask_db {A : Type} f : keeps R (ask_db X f : M X A).
Proof. intros w. unfold ask_db. destruct (f _ _); apply R_refl. Qed.

Lemma keeps_VCF path : keeps R (VCF X path).
Proof.
  intros w. unfold VCF. destruct (w_fs X w !! path) as [text|];
    [destruct (parse_vcf X text)|]; apply R_refl.
Qed.

Lemma keeps_get_beacon_histories gi : keeps R (get_beacon_histories X gi).
Proof.
  unfold get_beacon_histories.
  apply keeps_bind; [apply keeps_lift|]. intros resp.
  apply keeps_bind; [case_bool_decide; [apply keeps_logging|apply keeps_ret]|].
  intros _. apply keeps_bind; [apply keeps_lift|]. intros body.
  apply keeps_bind; [apply keeps_lift|]. intros present.
  apply keeps_bind; [destruct present; [apply keeps_ret|apply keeps_logging]|].
  intros _. apply keeps_lift.
Qed.

Lemma keeps_entry_body gi e l : keeps R (entry_body X gi e l).
Proof.
  unfold entry_body.
  apply keeps_bind; [by apply keeps_record_call|]. intros _.
  apply keeps_bind.
  - destruct (GalaxyDataset.init _) as [[]|d];
      try apply keeps_raise; [|apply keeps_ret].
    apply keeps_bind; [apply keeps_logging|]. intros _. apply keeps_ret.
  - intros l1. destruct (dataset l1) as [d|]; [|apply keeps_raise].
    destruct (match_reference _); [apply keeps_ret|].
    apply keeps_bind; [apply keeps_logging|]. intros _. apply keeps_ret.
Qed.

Lemma keeps_get_datasets_from gi hid fuel : ∀ o l,
  keeps R (get_datasets_from X fuel gi hid o l).
Proof.
  induction fuel as [|fuel IH]; intros o l; [intros w; apply R_refl|].
  cbn [get_datasets_from].
  apply keeps_bind; [by apply keeps_record_call|]. intros _.
  apply keeps_bind; [apply keeps_for_each; intros; apply keeps_entry_body|].
  intros l1. case_bool_decide; [apply keeps_ret|apply IH].
Qed.

Lemma keeps_prepare_metadata_file d path :
  keeps R (prepare_metadata_file X d path).
Proof.
  intros w. rewrite prepare_metadata_file_writes.
  eapply R_trans; [apply R_tick|].
  eapply R_trans; [apply R_tick|].
  destruct (open_w X path); simpl; [apply R_refl|].
  apply (R_write path _ (tick X (tick X w))).
Qed.

Lemma keeps_leave_file path remains : keeps R (leave_file X path remains).
Proof.
  intros w. unfold leave_file.
  destruct remains; simpl; [apply R_write|apply R_refl].
Qed.

Lemma keeps_download_dataset gi d filename :
  keeps R (download_dataset X gi d filename).
Proof.
  unfold download_dataset.
  apply keeps_bind; [by apply keeps_record_call|]. intros _.
  destruct (download gi _) as [[e remains]|bytes];
    [|apply keeps_leave_file].
  apply keeps_bind; [apply keeps_leave_file|]. intros _.
  apply keeps_logging.
Qed.

Lemma keeps_beacon_import df mf : keeps R (beacon_import X df mf).
Proof.
  unfold beacon_import, db_load_metadata, db_load_datafile.
  apply keeps_bind; [apply keeps_VCF|]. intros vcf.
  apply keeps_bind.
  - apply keeps_bind; [by apply keeps_record_call|]. intros _.
    apply keeps_bind; [apply keeps_ask_db|]. intros r.
    apply keeps_bind; [intros w; apply R_db|]. intros _.
    apply keeps_bind; [by apply keeps_record_call|]. intros _.
    apply keeps_ret.
  - intros dataset_id.
    apply keeps_bind; [by apply keeps_record_call|]. intros _.
    apply keeps_bind; [apply keeps_ask_db|]. intros c.
    apply keeps_bind; [intros w; apply R_db|]. intros _.
    by apply keeps_record_call.
Qed.

Lemma keeps_import_dataset args gi d :
  (skip_origins args = false ->
   ∀ dataset_id records,
     keeps R (persist_variant_origins X dataset_id records)) ->
  keeps R (import_dataset X args gi d).
Proof.
  intros Hpersist. unfold import_dataset.
  apply keeps_bind; [apply keeps_logging|]. intros _.
  apply keeps_bind; [apply keeps_download_dataset|]. intros _.
  apply keeps_bind; [apply keeps_prepare_metadata_file|]. intros _.
  apply keeps_bind; [apply keeps_beacon_import|]. intros _.
  destruct (skip_origins args); cbn [negb]; [apply keeps_ret|].
  apply keeps_bind; [apply keeps_VCF|]. intros records. by apply Hpersist.
Qed.

Lemma keeps_import_histories fuel args gi :
  (skip_origins args = false ->
   ∀ dataset_id records,
     keeps R (persist_variant_origins X dataset_id records)) ->
  keeps R (import_histories X fuel args gi).
Proof.
  intros Hpersist. unfold import_histories.
  apply keeps_bind.
  { apply keeps_bind; [apply keeps_get_beacon_histories|].
    intros v. apply keeps_lift. }
  intros histories. apply keeps_for_each. intros history [].
  apply keeps_bind; [apply keeps_lift|]. intros hid.
  apply keeps_bind; [apply keeps_get_datasets_from|]. intros ds.
  apply keeps_for_each. intros d []. by apply keeps_import_dataset.
Qed.

End Frame.

Lemma extends_refl X (w : world X) : extends w w.
Proof.
  repeat split; try (exists []; by rewrite app_nil_r); [|done].
  exists EmptyString. by rewrite append_empty_r.
Qed.

Lemma extends_trans X (a b c : world X) :
  extends a b -> extends b c -> extends a c.
Proof.
  intros ([l1 L1] & [c1 C1] & [t1 T1] & K1) ([l2 L2] & [c2 C2] & [t2 T2] & K2).
  repeat split.
  - exists (l1 ++ l2). by rewrite L2, L1, app_assoc.
  - exists (c1 ++ c2). by rewrite C2, C1, app_assoc.
  - exists (t1 +:+ t2). by rewrite T2, T1, append_assoc.
  - lia.
Qed.

Lemma extends_grow X cs text (w : world X) : extends w (grow X cs text w).
Proof.
  repeat split; simpl; eauto.
  exists []. by rewrite app_nil_r.
Qed.

Lemma extends_same X (w w' : world X) :
  w_log X w' = w_log X w -> w_calls X w' = w_calls X w ->
  w_origins X w' = w_origins X w -> (w_clock X w <= w_clock X w')%nat ->
  extends w w'.
Proof.
  intros L C O K. repeat split; [| | |done].
  - exists []. by rewrite app_nil_r.
  - exists []. by rewrite app_nil_r.
  - exists EmptyString. by rewrite append_empty_r.
Qed.

(** X20. Whatever its outcome, a run of the loops of [main] only
    extends the log, the calls and the origin file, and the clock does not
    go back. *)
Theorem run_takes_nothing_back X fuel args gi (w : world X) :
  extends w (snd (import_histories X fuel args gi w)).
Proof.
  apply (keeps_import_histories X extends); clear w.
  - apply extends_refl.
  - apply extends_trans.
  - intros r w. split; [by exists [r]|]. split; [|split]; simpl; [| |done].
    + exists []. by rewrite app_nil_r.
    + exists EmptyString. by rewrite append_empty_r.
  - intros c w _. rewrite add_call_grow. apply extends_grow.
  - intros path text w. by apply extends_same.
  - intros c w. by apply extends_same.
  - intros w. apply extends_same; simpl; try done. lia.
  - intros _ dataset_id records w. rewrite persist_variant_origins_eq.
    apply extends_grow.
Qed.

Lemma untracked_refl X (w : world X) : untracked w w.
Proof. split; [done|]. exists []. by rewrite app_nil_r. Qed.

Lemma untracked_trans X (a b c : world X) :
  untracked a b -> untracked b c -> untracked a c.
Proof.
  intros [O1 (c1 & C1 & F1)] [O2 (c2 & C2 & F2)]. split; [congruence|].
  exists (c1 ++ c2). split; [by rewrite C2, C1, app_assoc|].
  by apply Forall_app.
Qed.

Lemma untracked_same X (w w' : world X) :
  w_calls X w' = w_calls X w -> w_origins X w' = w_origins X w ->
  untracked w w'.
Proof. intros C O. split; [done|]. exists []. by rewrite app_nil_r. Qed.

(** X21. With the option to skip origins, a run of the loops of
    [main] leaves the origin file as it was and sends no query to the
    database, whatever its outcome. *)
Theorem run_without_origins_tracks_nothing X fuel args gi (w : world X) :
  skip_origins args = true ->
  untracked w (snd (import_histories X fuel args gi w)).
Proof.
  intros Hskip. apply (keeps_import_histories X untracked); clear w.
  - apply untracked_refl.
  - apply untracked_trans.
  - intros r w. by apply untracked_same.
  - intros c w Hc. split; [done|]. exists [c]. split; [done|].
    by constructor.
  - intros path text w. by apply untracked_same.
  - intros c w. by apply untracked_same.
  - intros w. by apply untracked_same.
  - congruence.
Qed.

Lemma run_without_origins_tracks_nothing_witness :
  untracked w0 (snd (import_histories mem 5 without_origins gi_two w0)).
Proof.
  apply (run_without_origins_tracks_nothing mem 5 without_origins gi_two w0).
  reflexivity.
Defined.

(** X22. Whatever its outcome, a run of the loops of [main] removes
    no file: every file that was there before is still there. *)
Theorem run_removes_no_file X fuel args gi (w : world X) :
  no_file_removed w (snd (import_histories X fuel args gi w)).
Proof.
  apply (keeps_import_histories X no_file_removed); clear w;
    try (intros; intros p Hp; exact Hp).
  - intros a b c H1 H2 p Hp. by apply H2, H1.
  - intros path text w p Hp. simpl.
    destruct (decide (path = p)) as [->|Hne];
      [rewrite lookup_insert_eq; eauto|by rewrite lookup_insert_ne].
  - intros _ dataset_id records w p Hp.
    by rewrite persist_variant_origins_eq.
Qed.

(** ** The identifiers that reach the database *)

Lemma lower_app (a b : string) : lower (a +:+ b) = lower a +:+ lower b.
Proof.
  induction a as [|c a IH]; [done|]. rewrite append_cons. simpl.
  by rewrite IH.
Qed.

Lemma lower_char_digit (c : ascii) : is_digit c = true -> lower_char c = c.
Proof.
  destruct c as [[] [] [] [] [] [] [] []]; vm_compute; congruence.
Qed.

Lemma lower_digits (ds : string) : all_digits ds = true -> lower ds = ds.
Proof.
  unfold all_digits. induction ds as [|c ds IH]; [done|]. simpl.
  intros [Hc Hd]%andb_prop. by rewrite (lower_char_digit c Hc), IH.
Qed.

(** X23. For every dataset [get_datasets] returns, the metadata
    [prepare_metadata_file] assembles has the assembly GRCh or hg followed by
    digits and the dataset identifier galaxy-grch or galaxy-hg followed by
    the same digits. *)
Theorem enumerated_datasets_get_family_ids X gi hid fuel ds (w w' : world X) :
  get_datasets X fuel gi hid w = (Val ds, w') ->
  ∀ d wm, d ∈ ds ->
    ∃ digits,
      digits ≠ EmptyString ∧ all_digits digits = true
      ∧ ((BeaconMetadata.assembly_id (metadata_in X d wm) = "GRCh" +:+ digits
          ∧ BeaconMetadata.dataset_id (metadata_in X d wm)
            = "galaxy-grch" +:+ digits)
         ∨ (BeaconMetadata.assembly_id (metadata_in X d wm) = "hg" +:+ digits
            ∧ BeaconMetadata.dataset_id (metadata_in X d wm)
              = "galaxy-hg" +:+ digits)).
Proof.
  intros Hrun d wm Hd. unfold get_datasets in Hrun.
  apply get_datasets_from_normalized in Hrun; [|by constructor].
  rewrite Forall_forall in Hrun. specialize (Hrun d Hd).
  destruct (match_reference_shape _ _ Hrun)
    as (family & digits & rest & Hf & Hne & Hdig & _ & _ & Heq).
  exists digits. split; [done|]. split; [done|].
  unfold metadata_in, assemble_metadata. cbn.
  rewrite Heq. destruct Hf as [-> | ->]; [left|right];
    (split; [done|]); rewrite lower_app, (lower_digits _ Hdig); done.
Qed.

Lemma enumerated_datasets_get_family_ids_witness :
  ∃ digits,
    digits ≠ EmptyString ∧ all_digits digits = true
    ∧ ((BeaconMetadata.assembly_id (metadata_in mem second_dataset w0)
        = "GRCh" +:+ digits
        ∧ BeaconMetadata.dataset_id (metadata_in mem second_dataset w0)
          = "galaxy-grch" +:+ digits)
       ∨ (BeaconMetadata.assembly_id (metadata_in mem second_dataset w0)
          = "hg" +:+ digits
          ∧ BeaconMetadata.dataset_id (metadata_in mem second_dataset w0)
            = "galaxy-hg" +:+ digits)).
Proof.
  apply (enumerated_datasets_get_family_ids mem gi_mixed h1 3
           [the_dataset; second_dataset] w0
           (snd (get_datasets mem 3 gi_mixed h1 w0))).
  - apply run_returns. vm_compute. reflexivity.
  - set_solver.
Defined.

(** ** Runs for the properties of a cycle *)

Lemma failed_download_stops_at_the_missing_file_witness :
  fst (import_dataset mem with_origins gi_offline the_dataset w0)
  = Exc (OSError "Error opening /tmp/dataset-uuid-f2db41e1fa331b3e")
  ∧ w_db mem (snd (import_dataset mem with_origins gi_offline the_dataset w0))
    = db0
  ∧ w_calls mem (snd (import_dataset mem with_origins gi_offline the_dataset w0))
    = [DownloadDataset "f2db41e1fa331b3e" "/tmp/dataset-uuid-f2db41e1fa331b3e"].
Proof.
  pose proof (failed_download_stops_at_the_missing_file mem with_origins
                gi_offline the_dataset w0 "connection refused" eq_refl
                eq_refl) as H.
  cbv zeta in H. rewrite H. done.
Defined.

(** The same cycle on a machine whose [/tmp] cannot be written, and a
    cycle whose download breaks off: the incomplete file is what the
    parser is given. *)
Example cycles_that_fail :
  fst (import_dataset mem_locked with_origins gi_offline the_dataset w_locked)
  = Exc (FileNotFoundError "/tmp/metadata-uuid-f2db41e1fa331b3e")
  ∧ w_fs mem_locked
      (snd (import_dataset mem_locked with_origins gi_offline the_dataset
              w_locked))
    !! "/tmp/metadata-uuid-f2db41e1fa331b3e" = None
  ∧ fst (import_dataset mem with_origins gi_cut the_dataset w0)
    = Exc (ForeignError "not a variant file")
  ∧ w_fs mem (snd (import_dataset mem with_origins gi_cut the_dataset w0))
    !! "/tmp/dataset-uuid-f2db41e1fa331b3e" = Some "1 101 . A"
  ∧ map lvl
      (w_log mem (snd (import_dataset mem with_origins gi_cut the_dataset w0)))
    = [INFO; CRITICAL].
Proof. repeat split; vm_compute; reflexivity. Qed.

Lemma failed_download_imports_what_is_there_witness :
  ∃ text records dataset_id c1,
    w_fs mem w_leftover !! dataset_path the_dataset = Some text
    ∧ w_fs mem (snd (import_dataset mem with_origins gi_offline the_dataset
                       w_leftover))
      !! dataset_path the_dataset = Some text
    ∧ parse_vcf mem text = Some records
    ∧ load_metadata mem (w_db mem w_leftover)
        (w_fs mem (snd (import_dataset mem with_origins gi_offline the_dataset
                          w_leftover)))
        records (metadata_path the_dataset) (dataset_path the_dataset)
      = inr (dataset_id, c1)
    ∧ load_datafile mem c1
        (w_fs mem (snd (import_dataset mem with_origins gi_offline the_dataset
                          w_leftover)))
        records (dataset_path the_dataset) dataset_id 0
      = inr (w_db mem (snd (import_dataset mem with_origins gi_offline
                              the_dataset w_leftover)))
    ∧ download_failure "connection refused"
      ∈ w_log mem (snd (import_dataset mem with_origins gi_offline the_dataset
                          w_leftover)).
Proof.
  apply (failed_download_imports_what_is_there mem with_origins gi_offline
           the_dataset w_leftover _ "connection refused" None).
  - reflexivity.
  - apply run_returns. vm_compute. reflexivity.
Defined.

Lemma cleanup_undoes_a_cycle_witness :
  ∃ w'',
    cleanup mem (dataset_path the_dataset) (metadata_path the_dataset)
      (snd (import_dataset mem with_origins gi_one the_dataset w0))
    = (Val tt, w'')
    ∧ w_fs mem w'' = w_fs mem w0
    ∧ w_db mem w''
      = w_db mem (snd (import_dataset mem with_origins gi_one the_dataset w0))
    ∧ w_origins mem w''
      = w_origins mem (snd (import_dataset mem with_origins gi_one the_dataset w0))
    ∧ w_log mem w''
      = w_log mem (snd (import_dataset mem with_origins gi_one the_dataset w0))
    ∧ w_calls mem w''
      = w_calls mem (snd (import_dataset mem with_origins gi_one the_dataset w0)).
Proof.
  destruct (cleanup_undoes_a_cycle mem with_origins gi_one the_dataset w0
              (snd (import_dataset mem with_origins gi_one the_dataset w0)))
    as (w'' & Hc & Hfs & Hrest).
  - apply run_returns. vm_compute. reflexivity.
  - exists w''. split; [exact Hc|]. split; [|exact Hrest].
    apply Hfs; reflexivity.
Defined.

